(** * logsearch: a shallow embedding of the log search engine

    The development follows [logsearch.py]: the Line Source
    ([open_maybe_gzip], [iter_lines]), the Matcher ([match_line]), the
    time window ([within_window]), the File Resolver ([find_files]), the
    Record Sink ([emit_record]), the line pipeline ([process_line]),
    the bounds of the window ([parse_dt]) and the Tail Engine
    ([_read_new_lines], [_tail_files]); of [app.py] it covers the
    preview that [upload] builds from a [jsonl] result file.

    Python [str] values are modelled by [string]; a character is one
    [ascii] unit (a code point below 256), and text positions are
    counted in characters.  The
    regular expression engine, [glob], the [datetime] library and the
    file system are the environment of the program: they appear as
    record fields and section variables. *)

From Stdlib Require Import Ascii ZArith Lia DecimalString DecimalNat DecimalFacts.
From stdpp Require Import base list strings sorting.

Local Open Scope nat_scope.

(** ** Python strings *)

Module PyStr.

Definition LF : ascii := "010"%char.
Definition CR : ascii := "013"%char.
Definition BSL : ascii := "092"%char.
Definition DQ : ascii := "034"%char.

(** The Python literal ["\\n"] of the source: a backslash followed by
    the letter n (two characters, neither of them a line feed). *)
Definition bs_n : string := String BSL (String "n"%char "").

(** The one-character string holding a line feed. *)
Definition nl : string := String LF "".
Definition crnl : string := String CR (String LF "").

Definition ascii_eqb (a b : ascii) : bool := bool_decide (a = b).

(** [c in chars] *)
Fixpoint str_in (c : ascii) (chars : string) : bool :=
  match chars with
  | EmptyString => false
  | String d r => ascii_eqb c d || str_in c r
  end.

(** [s.rstrip(chars)]: drop the longest suffix of [s] made of
    characters of [chars]. *)
Fixpoint rstrip (chars s : string) : string :=
  match s with
  | EmptyString => ""
  | String c r =>
      match rstrip chars r with
      | EmptyString => if str_in c chars then "" else String c ""
      | r' => String c r'
      end
  end.

(** [s[n:]] *)
Fixpoint str_drop (n : nat) (s : string) : string :=
  match n, s with
  | 0, _ => s
  | S _, EmptyString => ""
  | S n', String _ r => str_drop n' r
  end.

(** [s.endswith(suffix)] *)
Definition endswith (s suffix : string) : bool :=
  bool_decide (str_drop (String.length s - String.length suffix) s = suffix).

(** [''.join(parts)] *)
Definition str_join (parts : list string) : string :=
  foldr String.append "" parts.

(** [fh.readlines()] (and iteration over [fh]) for a text handle opened
    with [newline=""]: the text is cut after every ["\n"], ["\r\n"] or
    lone ["\r"], and the terminators are kept. *)
Fixpoint readlines (s : string) : list string :=
  match s with
  | EmptyString => []
  | String c r =>
      if ascii_eqb c LF then nl :: readlines r
      else if ascii_eqb c CR then
        match r with
        | String d r' =>
            if ascii_eqb d LF then crnl :: readlines r'
            else String CR "" :: readlines r
        | EmptyString => [String CR ""]
        end
      else
        match readlines r with
        | [] => [String c ""]
        | l :: ls => String c l :: ls
        end
  end.

End PyStr.
Import PyStr.

(** ** The file system seen by the program *)

Abbreviation path := string (only parsing).
Abbreviation inode := nat (only parsing).

(** [dir] resolves a path to the regular file it names ([None]: the path
    does not exist); [data] is the decoded text of a file; [gz_data] is
    the decoded text read through [gzip.open] ([None]: not a gzip
    stream, the read raises). *)
Record filesys := {
  dir : path -> option inode;
  data : inode -> string;
  gz_data : inode -> option string
}.

(** A one-file file system, for examples. *)
Definition one_file (p : string) (ino : nat) (text : string) : filesys :=
  {| dir := fun q => if bool_decide (q = p) then Some ino else None;
     data := fun i => if bool_decide (i = ino) then text else "";
     gz_data := fun _ => None |}.

(** ** Line Source *)

(** [Path.name]: the text after the last separator. *)
Fixpoint basename_from (cur p : string) : string :=
  match p with
  | EmptyString => cur
  | String c r => if ascii_eqb c "/"%char then basename_from "" r
                  else basename_from (cur +:+ String c "") r
  end.
Definition basename (p : string) : string := basename_from "" p.

(** [path.suffix == ".gz"]: the name ends in [.gz] and the dot is not its
    first character. *)
Definition suffix_is_gz (p : string) : bool :=
  let name := basename p in
  endswith name ".gz" && (3 <? String.length name).

(** [open_maybe_gzip(path, encoding)]: the text the returned handle
    reads, [None] when opening raises. *)
Definition open_maybe_gzip (fs : filesys) (p : string) : option string :=
  match dir fs p with
  | None => None
  | Some ino => if suffix_is_gz p then gz_data fs ino else Some (data fs ino)
  end.

(** [enumerate(fh, start=idx)] followed by the [yield] of [iter_lines]. *)
Fixpoint yield_lines (f : string) (idx : nat) (lines : list string)
  : list (string * nat * string) :=
  match lines with
  | [] => []
  | line :: rest => (f, idx, rstrip bs_n line) :: yield_lines f (S idx) rest
  end.

(** [iter_lines(files, encoding)]: the sequence the generator yields; a
    file that cannot be opened only prints a warning.  A read that fails
    after some lines were yielded is not modelled. *)
Fixpoint iter_lines (fs : filesys) (files : list string)
  : list (string * nat * string) :=
  match files with
  | [] => []
  | f :: rest =>
      match open_maybe_gzip fs f with
      | Some text => yield_lines f 1 (readlines text) ++ iter_lines fs rest
      | None => iter_lines fs rest
      end
  end.


(** The text of a line without its terminator, as the specification
    words the output of the Line Source. *)
Fixpoint strip_terminator (l : string) : string :=
  match l with
  | EmptyString => ""
  | String c r =>
      if ascii_eqb c LF && bool_decide (r = "") then ""
      else if ascii_eqb c CR && (bool_decide (r = "") || bool_decide (r = nl))
      then ""
      else String c (strip_terminator r)
  end.

(** A file of two lines, the last one without a terminator. *)
Definition two_lines : string := "ERROR disk full" +:+ nl +:+ "shutdown".

(** ** Errors *)

(** The exceptions the modelled code can raise; [OverflowError] and
    [OSError] are what a conversion to local time may raise besides
    [ValueError]. *)
Inductive exn := TypeError | ValueError | OverflowError | OSError.

Inductive result (A : Type) :=
| Ok (a : A)
| Raise (e : exn).
Arguments Ok {A} a.
Arguments Raise {A} e.

#[global] Instance result_bind : MBind result := fun A B k r =>
  match r with
  | Ok a => k a
  | Raise e => Raise e
  end.

(** ** Matcher *)

(** A match object: [m.group(0)] and [m.groupdict()]; a named group that
    took no part in the match has the value [None]. *)
Record Match := {
  group0 : string;
  groupdict : list (string * option string)
}.

(** A compiled pattern: its source text [p.pattern] and [p.search]. *)
Record Pattern := {
  pattern : string;
  search : string -> option Match
}.

(** [if p.search(line)]: a match object is true, [None] is false. *)
Definition hits (line : string) (p : Pattern) : bool :=
  bool_decide (is_Some (search p line)).

(** The two [for] loops that fill [reasons]. *)
Definition reasons_of (tag : string) (pats : list Pattern) (line : string)
  : list string :=
  flat_map (fun p => if hits line p then [tag +:+ pattern p] else []) pats.

(** [bool(l)] for a list. *)
Definition nonempty {A} (l : list A) : bool :=
  match l with [] => false | _ :: _ => true end.

Definition match_line (line : string) (kw_patterns rx_patterns : list Pattern)
  (match_mode : string) : bool * option string :=
  let reasons := reasons_of "kw:" kw_patterns line
                 ++ reasons_of "re:" rx_patterns line in
  match reasons with
  | [] => (false, None)
  | first :: _ =>
      if bool_decide (match_mode = "all") then
        let ok := true in
        let ok := if nonempty kw_patterns
                  then ok && existsb (hits line) kw_patterns else ok in
        let ok := if nonempty rx_patterns
                  then ok && existsb (hits line) rx_patterns else ok in
        (ok, if ok then Some first else None)
      else (true, Some first)
  end.

(** The first pattern that hits, keywords before regexes, as the text
    the Matcher reports for it. *)
Definition first_reason (line : string) (kw_patterns rx_patterns : list Pattern)
  : option string :=
  match find (hits line) kw_patterns with
  | Some p => Some ("kw:" +:+ pattern p)
  | None =>
      match find (hits line) rx_patterns with
      | Some p => Some ("re:" +:+ pattern p)
      | None => None
      end
  end.

(** At least one pattern of the list matches the line. *)
Definition any_hit (line : string) (pats : list Pattern) : Prop :=
  Exists (fun p => hits line p = true) pats.

(** [needle in hay] *)
Fixpoint str_prefix (p s : string) : bool :=
  match p, s with
  | EmptyString, _ => true
  | String a p', String b s' => ascii_eqb a b && str_prefix p' s'
  | String _ _, EmptyString => false
  end.

Fixpoint str_contains (needle hay : string) : bool :=
  str_prefix needle hay ||
  match hay with
  | EmptyString => false
  | String _ r => str_contains needle r
  end.

(** What [re.compile(re.escape(k))] is for a keyword [k] made of letters,
    digits and underscores: a case-sensitive substring test whose
    pattern text is [k] itself. *)
Definition literal (k : string) : Pattern :=
  {| pattern := k;
     search := fun line =>
       if str_contains k line
       then Some {| group0 := k; groupdict := [] |} else None |}.

(** ** Time window *)

(** A [datetime]: naive (a wall-clock reading) or aware (an instant).
    Ordering a naive value against an aware one raises [TypeError]. *)
Inductive datetime :=
| Naive (wall : Z)
| Aware (instant : Z).

Definition dt_lt (a b : datetime) : result bool :=
  match a, b with
  | Naive x, Naive y => Ok (x <? y)%Z
  | Aware x, Aware y => Ok (x <? y)%Z
  | _, _ => Raise TypeError
  end.

Definition dt_gt (a b : datetime) : result bool := dt_lt b a.

Definition within_window (ts since until : option datetime) : result bool :=
  match since, until with
  | None, None => Ok true
  | _, _ =>
      match ts with
      | None => Ok false
      | Some t =>
          early ← match since with
                   | Some s => dt_lt t s
                   | None => Ok false
                   end;
          if early : bool then Ok false
          else
            late ← match until with
                    | Some u => dt_gt t u
                    | None => Ok false
                    end;
            if late : bool then Ok false else Ok true
      end
  end.

Definition is_aware (d : datetime) : bool :=
  match d with Aware _ => true | Naive _ => false end.

(** The two values can be ordered: both are present and of one kind, or
    one of them is absent. *)
Definition comparable (a b : option datetime) : Prop :=
  match a, b with
  | Some x, Some y => is_aware x = is_aware y
  | _, _ => True
  end.

(** The reading of a value on its time line. *)
Definition reading (d : datetime) : Z :=
  match d with Aware z => z | Naive z => z end.

(** The window of the specification: the bounds that are present, both
    ends included. *)
Definition in_bounds (t : datetime) (since until : option datetime) : Prop :=
  (forall s, since = Some s -> (reading s <= reading t)%Z) /\
  (forall u, until = Some u -> (reading t <= reading u)%Z).

(** ** File Resolver *)

Section FileResolver.

(** [expand] is [os.path.expanduser(os.path.expandvars(pattern))],
    [glob] is [glob.glob(_, recursive=True)], [Path] gives the normal
    form of a path, [is_file p] is [p.exists() and p.is_file()] and
    [path_le] is the order [sorted] uses on paths. *)
Context (expand : string -> string)
        (glob : string -> list string)
        (Path : string -> string)
        (is_file : string -> bool)
        (path_le : relation string)
        `{!RelDecision path_le}.

(** The candidates of the include patterns that are regular files. *)
Definition candidates (include_globs : list string) : list string :=
  flat_map (fun pattern =>
              filter (fun pp => is_file pp = true)
                     (map Path (glob (expand pattern))))
           include_globs.

Definition find_files (include_globs exclude_globs : list string) : list string :=
  let files := candidates include_globs in
  let files := merge_sort path_le (remove_dups (map Path files)) in
  if nonempty exclude_globs then
    let excluded :=
      flat_map (fun ex => map Path (glob (expand ex))) exclude_globs in
    filter (fun f => f ∉ excluded) files
  else files.

(** The start of [main] after the arguments are read: an empty file
    set ends the process with status 1. *)
Inductive startup :=
| Exit (status : nat)
| Scan (files : list string).

Definition main_find_files (include exclude : list string) : startup :=
  let files := find_files include exclude in
  if nonempty files then Scan files else Exit 1.

End FileResolver.

(** A directory listing with one pattern that lists a file twice, a
    directory among the candidates and one excluded archive. *)
Definition demo_glob (pattern : string) : list string :=
  if bool_decide (pattern = "logs/*") then
    ["logs/web.log"; "logs/old"; "logs/app.log"; "logs/web.log"; "logs/app.log.1"]
  else if bool_decide (pattern = "logs/*.1") then ["logs/app.log.1"]
  else [].

Definition demo_is_file (p : string) : bool := negb (bool_decide (p = "logs/old")).

(** ** Python values and dictionaries *)

(** The values a record holds: [str], [int] (a line number) or [None]. *)
Inductive pyval :=
| PStr (s : string)
| PInt (n : nat)
| PNone.

#[global] Instance pyval_eq_dec : EqDecision pyval.
Proof. solve_decision. Defined.

(** A [dict] with string keys, in insertion order. *)
Definition dict : Type := list (string * pyval).

(** [d[k] = v]: an existing key keeps its place. *)
Fixpoint dict_set (k : string) (v : pyval) (d : dict) : dict :=
  match d with
  | [] => [(k, v)]
  | (k', v') :: rest =>
      if bool_decide (k' = k) then (k, v) :: rest
      else (k', v') :: dict_set k v rest
  end.

(** [d.update(items)] *)
Definition dict_update (d : dict) (items : dict) : dict :=
  fold_left (fun acc kv => dict_set kv.1 kv.2 acc) items d.

(** [d.get(k)] *)
Fixpoint dict_get (k : string) (d : dict) : option pyval :=
  match d with
  | [] => None
  | (k', v) :: rest => if bool_decide (k' = k) then Some v else dict_get k rest
  end.

Definition keys (d : dict) : list string := d.*1.

Definition of_opt (o : option string) : pyval :=
  match o with Some s => PStr s | None => PNone end.

(** [str(n)] for a line number. *)
Definition decimal (n : nat) : string := NilEmpty.string_of_uint (Nat.to_uint n).

(** [str(v)], as an f-string formats a value. *)
Definition py_str (v : pyval) : string :=
  match v with
  | PStr s => s
  | PInt n => decimal n
  | PNone => "None"
  end.

(** [sep.join(parts)] *)
Fixpoint str_join_with (sep : string) (parts : list string) : string :=
  match parts with
  | [] => ""
  | [x] => x
  | x :: rest => x +:+ sep +:+ str_join_with sep rest
  end.

(** ** JSON text: [json.dumps(rec, ensure_ascii=False)] *)

Definition hex_digit (n : nat) : ascii :=
  match n with
  | 0 => "0" | 1 => "1" | 2 => "2" | 3 => "3" | 4 => "4" | 5 => "5"
  | 6 => "6" | 7 => "7" | 8 => "8" | 9 => "9" | 10 => "a" | 11 => "b"
  | 12 => "c" | 13 => "d" | 14 => "e" | _ => "f"
  end%char.

(** The replacement of one character inside a JSON string: the quote
    and the backslash are escaped, control characters get their short
    escape or a [\u00XX] one, every other character is written as is. *)
Definition json_escape_char (c : ascii) : string :=
  let esc (x : ascii) := String BSL (String x "") in
  if ascii_eqb c DQ then esc DQ
  else if ascii_eqb c BSL then esc BSL
  else if ascii_eqb c LF then esc "n"%char
  else if ascii_eqb c CR then esc "r"%char
  else if ascii_eqb c "009"%char then esc "t"%char
  else if ascii_eqb c "008"%char then esc "b"%char
  else if ascii_eqb c "012"%char then esc "f"%char
  else if nat_of_ascii c <? 32 then
    String BSL (String "u" (String "0" (String "0"
      (String (hex_digit (nat_of_ascii c / 16))
         (String (hex_digit (nat_of_ascii c mod 16)) "")))))
  else String c "".

Fixpoint json_escape (s : string) : string :=
  match s with
  | EmptyString => ""
  | String c r => json_escape_char c +:+ json_escape r
  end.

Definition json_string (s : string) : string :=
  String DQ (json_escape s +:+ String DQ "").

Definition json_value (v : pyval) : string :=
  match v with
  | PStr s => json_string s
  | PInt n => decimal n
  | PNone => "null"
  end.

Definition json_member (kv : string * pyval) : string :=
  json_string kv.1 +:+ ": " +:+ json_value kv.2.

Definition json_dumps (d : dict) : string :=
  "{" +:+ str_join_with ", " (map json_member d) +:+ "}".

(** ** CSV rows: [csv.DictWriter] with its defaults *)

(** A cell as the writer formats a value: [None] is the empty string. *)
Definition csv_cell (v : pyval) : string :=
  match v with
  | PStr s => s
  | PInt n => decimal n
  | PNone => ""
  end.

Fixpoint csv_double_quotes (s : string) : string :=
  match s with
  | EmptyString => ""
  | String c r =>
      if ascii_eqb c DQ then String DQ (String DQ (csv_double_quotes r))
      else String c (csv_double_quotes r)
  end.

(** Minimal quoting: a cell holding the delimiter, the quote character
    or a line break is wrapped in quotes, its quotes doubled. *)
Definition csv_field (s : string) : string :=
  if str_in ","%char s || str_in DQ s || str_in CR s || str_in LF s
  then String DQ (csv_double_quotes s +:+ String DQ "")
  else s.

Definition csv_line (cells : list string) : string :=
  str_join_with "," (map csv_field cells) +:+ crnl.

(** [DictWriter._dict_to_list] with [extrasaction="raise"] and
    [restval=""]: a key outside [fieldnames] raises [ValueError]. *)
Definition _dict_to_list (fieldnames : list string) (row : dict)
  : result (list pyval) :=
  if forallb (fun k => bool_decide (k ∈ fieldnames)) (keys row)
  then Ok (map (fun key => default (PStr "") (dict_get key row)) fieldnames)
  else Raise ValueError.

(** ** Record Sink *)

(** The variables [emit_record] shares with [main]: the text written so
    far to the data stream ([out_fh], or standard output for the console
    format), the field names of the CSV writer once it exists, the set
    [dynamic_fields] and the counter [matched]. *)
Record sink := {
  out : string;
  csv_writer : option (list string);
  dynamic_fields : list string;
  matched : nat
}.

Definition sink0 : sink :=
  {| out := ""; csv_writer := None; dynamic_fields := []; matched := 0 |}.

(** [sorted(set)] on strings. *)
Definition sorted_set (l : list string) : list string :=
  merge_sort String.le (remove_dups l).

(** The characters [str.rstrip()] strips when it is given no argument:
    the white space among the characters of the model (the code points
    below 256), which includes the next-line character 133 and the
    no-break space 160. *)
Definition whitespace : string :=
  String " " (String "009" (String "010" (String "011" (String "012"
    (String "013" (String "028" (String "029" (String "030"
      (String "031" (String "133" (String "160" ""))))))))))).

Definition fixed_keys : list string :=
  ["file"; "lineno"; "timestamp"; "reason"; "line"].

(** The dictionary [rec] of the [jsonl] branch. *)
Definition jsonl_rec (fpath : string) (lineno : nat) (ts_out : string)
  (reason : option string) (line : string) (extra_fields : dict) : dict :=
  let rec := [("file", PStr fpath); ("lineno", PInt lineno);
              ("timestamp", PStr ts_out); ("reason", of_opt reason);
              ("line", PStr line)] in
  if nonempty extra_fields then dict_update rec extra_fields else rec.

(** The dictionary [row] of the [csv] branch. *)
Definition csv_row (fpath : string) (lineno : nat) (ts_out : string)
  (reason : option string) (line : string) (extra_fields : dict) : dict :=
  dict_update
    [("file", PStr fpath); ("lineno", PInt lineno);
     ("timestamp", PStr ts_out); ("reason", PStr (default "" reason));
     ("line", PStr line)]
    extra_fields.

(** [emit_record]: the sink afterwards, and the exception that leaves
    the function, if any.  What was assigned before a [raise] stays. *)
Definition emit_record (out_format : string) (s : sink)
  (fpath : string) (lineno : nat) (ts_out : string) (reason : option string)
  (line : string) (extra_fields : dict) : sink * option exn :=
  let matched' := S (matched s) in
  if bool_decide (out_format = "console") then
    let fields_str :=
      if nonempty extra_fields
      then str_join_with " "
             (map (fun kv => kv.1 +:+ "=" +:+ py_str kv.2) extra_fields)
      else "" in
    let text := fpath +:+ "|" +:+ decimal lineno +:+ "|" +:+ ts_out +:+ "|"
                +:+ py_str (of_opt reason) +:+ "| " +:+ fields_str +:+ " "
                +:+ line in
    ({| out := out s +:+ rstrip whitespace text +:+ nl;
        csv_writer := csv_writer s;
        dynamic_fields := dynamic_fields s;
        matched := matched' |}, None)
  else if bool_decide (out_format = "csv") then
    let dynamic' := list_union (dynamic_fields s) (keys extra_fields) in
    let fieldnames :=
      ["file"; "lineno"; "timestamp"; "reason"] ++ sorted_set dynamic'
      ++ ["line"] in
    let '(writer, out1) :=
      match csv_writer s with
      | None => (fieldnames, out s +:+ csv_line fieldnames)
      | Some w => (w, out s)
      end in
    let row := csv_row fpath lineno ts_out reason line extra_fields in
    match _dict_to_list writer row with
    | Ok cells =>
        ({| out := out1 +:+ csv_line (map csv_cell cells);
            csv_writer := Some writer;
            dynamic_fields := dynamic';
            matched := matched' |}, None)
    | Raise e =>
        ({| out := out1; csv_writer := Some writer;
            dynamic_fields := dynamic'; matched := matched' |}, Some e)
    end
  else if bool_decide (out_format = "jsonl") then
    let rec := jsonl_rec fpath lineno ts_out reason line extra_fields in
    ({| out := out s +:+ json_dumps rec +:+ bs_n;
        csv_writer := csv_writer s;
        dynamic_fields := dynamic_fields s;
        matched := matched' |}, None)
  else
    ({| out := out s; csv_writer := csv_writer s;
        dynamic_fields := dynamic_fields s; matched := matched' |}, None).

(** ** The line pipeline *)

(** The library calls of the pipeline: [datetime.strptime] ([None] when
    it raises), [dt.replace(tzinfo=timezone.utc)], [dt.astimezone()]
    (which raises for a value that has no local time, such as a date
    of the year 1), [dt.isoformat()] and [str.lower]. *)
Record pylib := {
  strptime : string -> string -> option datetime;
  replace_utc : datetime -> datetime;
  astimezone : datetime -> result datetime;
  isoformat : datetime -> string;
  lower : string -> string
}.

Definition extract_timestamp (lib : pylib) (line : string)
  (ts_regex : option Pattern) (ts_fmt : option string) (assume_tz : string)
  : option datetime :=
  match ts_regex, ts_fmt with
  | Some rx, Some fmt =>
      if bool_decide (fmt = "") then None
      else
        match search rx line with
        | None => None
        | Some m =>
            let ts_str :=
              match list_find (fun kv => kv.1 = "ts") (groupdict m) with
              | Some (_, (_, v)) => v
              | None => Some (group0 m)
              end in
            match ts_str with
            | None => None
            | Some text =>
                match strptime lib text fmt with
                | None => None
                | Some dt =>
                    if bool_decide (lower lib assume_tz = "utc")
                    then Some (replace_utc lib dt)
                    else if bool_decide (lower lib assume_tz = "local")
                    then match astimezone lib dt with
                         | Ok local => Some local
                         | Raise _ => None
                         end
                    else Some dt
                end
            end
        end
  | _, _ => None
  end.

(** The values [main] computes before the first line is read. *)
Record config := {
  kw_patterns : list Pattern;
  rx_patterns : list Pattern;
  match_mode : string;
  ts_enabled : bool;
  ts_regex : option Pattern;
  ts_fmt : option string;
  assume_tz : string;
  since : option datetime;
  until : option datetime;
  field_patterns : list Pattern;
  out_format : string
}.

(** [{k: v for k, v in m.groupdict().items() if k}] *)
Definition named_groups (m : Match) : dict :=
  map (fun kv => (kv.1, of_opt kv.2))
      (filter (fun kv => kv.1 <> "") (groupdict m)).

(** The loop over [field_patterns] that fills [extra]. *)
Definition extract_fields (field_patterns : list Pattern) (line : string) : dict :=
  fold_left
    (fun extra ptn =>
       match search ptn line with
       | Some m => dict_update extra (named_groups m)
       | None => extra
       end)
    field_patterns [].

(** The [ts] of [process_line]. *)
Definition line_timestamp (lib : pylib) (cfg : config) (line : string)
  : option datetime :=
  if ts_enabled cfg
  then extract_timestamp lib line (ts_regex cfg) (ts_fmt cfg) (assume_tz cfg)
  else None.

(** The [ts_out] of [process_line]. *)
Definition timestamp_text (lib : pylib) (ts : option datetime) : string :=
  match ts with Some t => isoformat lib t | None => "" end.

Definition process_line (lib : pylib) (cfg : config) (s : sink)
  (fpath : string) (lineno : nat) (line : string) : sink * option exn :=
  let ts := line_timestamp lib cfg line in
  match within_window ts (since cfg) (until cfg) with
  | Raise e => (s, Some e)
  | Ok false => (s, None)
  | Ok true =>
      let '(ok, reason) :=
        match_line line (kw_patterns cfg) (rx_patterns cfg) (match_mode cfg) in
      if ok then
        let extra := extract_fields (field_patterns cfg) line in
        let ts_out := timestamp_text lib ts in
        emit_record (out_format cfg) s fpath lineno ts_out reason line extra
      else (s, None)
  end.

(** The initial pass of [main]: every line of [iter_lines] is counted
    and processed; an exception ends the run. *)
Fixpoint initial_pass (lib : pylib) (cfg : config)
  (items : list (string * nat * string)) (s : sink) (total : nat)
  : sink * nat * option exn :=
  match items with
  | [] => (s, total, None)
  | (f, lineno, line) :: rest =>
      match process_line lib cfg s f lineno line with
      | (s', None) => initial_pass lib cfg rest s' (S total)
      | (s', Some e) => (s', S total, Some e)
      end
  end.

(** A configuration for examples: the keyword [ERROR], and one field
    pattern whose named group is called [line]. *)
Definition level_pattern : Pattern :=
  {| pattern := "(?P<line>disk|net)";
     search := fun text =>
       if str_contains "disk" text
       then Some {| group0 := "disk"; groupdict := [("line", Some "disk")] |}
       else if str_contains "net" text
       then Some {| group0 := "net"; groupdict := [("line", Some "net")] |}
       else None |}.

Definition user_pattern : Pattern :=
  {| pattern := "user=(?P<user>bob)";
     search := fun text =>
       if str_contains "user=bob" text
       then Some {| group0 := "user=bob"; groupdict := [("user", Some "bob")] |}
       else None |}.

Definition demo_cfg (fmt : string) (fields : list Pattern) : config :=
  {| kw_patterns := [literal "ERROR"]; rx_patterns := []; match_mode := "any";
     ts_enabled := false; ts_regex := None; ts_fmt := None; assume_tz := "UTC";
     since := None; until := None;
     field_patterns := fields;
     out_format := fmt |}.

Definition demo_lib : pylib :=
  {| strptime := fun _ _ => None; replace_utc := fun d => d;
     astimezone := fun d => Ok d; isoformat := fun _ => "";
     lower := fun s => s |}.

(** ** Reading JSON text: [json.loads] on flat objects *)

(** The reader covers the texts the sink can write: one object whose
    values are strings, non-negative integers or [null], with white
    space between the tokens.  [None] stands for a text [json.loads]
    rejects, or one outside this fragment (nested values, other
    numbers, [\u] escapes above 007f). *)

Inductive token :=
| TLBrace | TRBrace | TColon | TComma
| TStr (s : string)
| TInt (digits : string)
| TNull.

Inductive lex_mode :=
| Top
| InStr (acc : string)
| InNum (digits : string).

Definition is_digit (c : ascii) : bool :=
  (48 <=? nat_of_ascii c) && (nat_of_ascii c <=? 57).

Definition is_ws (c : ascii) : bool :=
  ascii_eqb c " " || ascii_eqb c "009" || ascii_eqb c LF || ascii_eqb c CR.

Definition hex_value (c : ascii) : option nat :=
  let n := nat_of_ascii c in
  if (48 <=? n) && (n <=? 57) then Some (n - 48)
  else if (97 <=? n) && (n <=? 102) then Some (n - 87)
  else if (65 <=? n) && (n <=? 70) then Some (n - 55)
  else None.

Definition hex4 (a b c d : ascii) : option nat :=
  match hex_value a, hex_value b, hex_value c, hex_value d with
  | Some x, Some y, Some z, Some w => Some (((x * 16 + y) * 16 + z) * 16 + w)
  | _, _, _, _ => None
  end.

(** The character a one-letter escape stands for. *)
Definition unescape (e : ascii) : option ascii :=
  if ascii_eqb e DQ then Some DQ
  else if ascii_eqb e BSL then Some BSL
  else if ascii_eqb e "/" then Some "/"%char
  else if ascii_eqb e "b" then Some "008"%char
  else if ascii_eqb e "f" then Some "012"%char
  else if ascii_eqb e "n" then Some LF
  else if ascii_eqb e "r" then Some CR
  else if ascii_eqb e "t" then Some "009"%char
  else None.

Definition snoc_char (s : string) (c : ascii) : string := s +:+ String c "".

(** The scanner: one pass over the text, cutting it into tokens. *)
Fixpoint lex (m : lex_mode) (s : string) : option (list token) :=
  match s with
  | EmptyString =>
      match m with
      | Top => Some []
      | InNum d => Some [TInt d]
      | InStr _ => None
      end
  | String c r =>
      match m with
      | InStr acc =>
          if ascii_eqb c DQ then cons (TStr acc) <$> lex Top r
          else if ascii_eqb c BSL then
            match r with
            | String e r1 =>
                if ascii_eqb e "u" then
                  match r1 with
                  | String h1 (String h2 (String h3 (String h4 r2))) =>
                      match hex4 h1 h2 h3 h4 with
                      | Some code =>
                          if code <? 128
                          then lex (InStr (snoc_char acc (ascii_of_nat code))) r2
                          else None
                      | None => None
                      end
                  | _ => None
                  end
                else
                  match unescape e with
                  | Some x => lex (InStr (snoc_char acc x)) r1
                  | None => None
                  end
            | EmptyString => None
            end
          else if nat_of_ascii c <? 32 then None
          else lex (InStr (snoc_char acc c)) r
      | _ =>
          if is_digit c then
            match m with
            | InNum d => lex (InNum (snoc_char d c)) r
            | _ => lex (InNum (String c "")) r
            end
          else
            let after :=
              if is_ws c then lex Top r
              else if ascii_eqb c "{" then cons TLBrace <$> lex Top r
              else if ascii_eqb c "}" then cons TRBrace <$> lex Top r
              else if ascii_eqb c ":" then cons TColon <$> lex Top r
              else if ascii_eqb c "," then cons TComma <$> lex Top r
              else if ascii_eqb c DQ then lex (InStr "") r
              else if ascii_eqb c "n" then
                match r with
                | String "u" (String "l" (String "l" r')) =>
                    cons TNull <$> lex Top r'
                | _ => None
                end
              else None in
            match m with
            | InNum d => cons (TInt d) <$> after
            | _ => after
            end
      end
  end.

#[global] Instance uint_eq_dec : EqDecision Decimal.uint.
Proof. solve_decision. Defined.

(** The value of a numeral: its digits, without a leading zero. *)
Definition parse_int (digits : string) : option nat :=
  match NilEmpty.uint_of_string digits with
  | Some d => if bool_decide (Decimal.unorm d = d) then Some (Nat.of_uint d)
              else None
  | None => None
  end.

Definition value_of (t : token) : option pyval :=
  match t with
  | TStr s => Some (PStr s)
  | TInt d => PInt <$> parse_int d
  | TNull => Some PNone
  | _ => None
  end.

(** The members of an object, after the opening brace or a comma. *)
Fixpoint parse_members (ts : list token) : option (list (string * pyval)) :=
  match ts with
  | TStr k :: TColon :: t :: rest =>
      match value_of t with
      | Some v =>
          match rest with
          | [TRBrace] => Some [(k, v)]
          | TComma :: rest' => cons (k, v) <$> parse_members rest'
          | _ => None
          end
      | None => None
      end
  | _ => None
  end.

(** [json.loads(text)]: the pairs are stored in order, a repeated key
    keeps its first place and takes the last value. *)
Definition json_loads (text : string) : option dict :=
  match lex Top text with
  | Some [TLBrace; TRBrace] => Some []
  | Some (TLBrace :: rest) =>
      match parse_members rest with
      | Some items => Some (dict_update [] items)
      | None => None
      end
  | _ => None
  end.

(** The tokens of a written object, for the proofs about the reader. *)
Definition tok_of (v : pyval) : token :=
  match v with
  | PStr s => TStr s
  | PInt n => TInt (decimal n)
  | PNone => TNull
  end.

Fixpoint members_tokens (d : dict) : list token :=
  match d with
  | [] => []
  | (k, v) :: rest =>
      TStr k :: TColon :: tok_of v ::
      match rest with
      | [] => []
      | _ :: _ => TComma :: members_tokens rest
      end
  end.

Fixpoint all_digits (s : string) : bool :=
  match s with
  | EmptyString => true
  | String c r => is_digit c && all_digits r
  end.

(** What reading a written record back is to recover: the five fixed
    values and every extracted field, as they were handed to the sink. *)
Definition recovers (text : string) (fpath : string) (lineno : nat)
  (ts_out : string) (reason : option string) (line : string) (extra : dict)
  : Prop :=
  exists d,
    json_loads text = Some d /\
    dict_get "file" d = Some (PStr fpath) /\
    dict_get "lineno" d = Some (PInt lineno) /\
    dict_get "timestamp" d = Some (PStr ts_out) /\
    dict_get "reason" d = Some (of_opt reason) /\
    dict_get "line" d = Some (PStr line) /\
    (forall k v, dict_get k extra = Some v -> dict_get k d = Some v).

(** ** Tail Engine *)

(** One callback invocation: [callback(f, lineno, ln)]. *)
Definition event : Type := string * nat * string.

(** The per-file dictionary of [_tail_files]: the open handle (the file
    it was opened on), the read position, the line counter and the
    remembered [(st_ino, st_size)]. *)
Record cursor := {
  fh : inode;
  pos : nat;
  lineno : nat;
  stat : inode * nat
}.

(** [_read_new_lines(fp, pos)] on a handle whose file holds [text]. *)
Definition _read_new_lines (text : string) (p : nat) : nat * list string :=
  let lines := readlines (str_drop p text) in
  (Nat.max p (String.length text), map (rstrip bs_n) lines).

(** [_open(path)] of [_tail_files]: gzip names are refused, the handle
    is positioned at the end of the file. *)
Definition _open (fs : filesys) (p : string) : option cursor :=
  if endswith p ".gz" then None
  else match dir fs p with
       | None => None
       | Some ino =>
           let size := String.length (data fs ino) in
           Some {| fh := ino; pos := size; lineno := 0; stat := (ino, size) |}
       end.

(** The watched set, in the insertion order of the [state] dictionary. *)
Definition tail_state : Type := list (string * cursor).

(** The start of [_tail_files]: open every file that can be watched. *)
Fixpoint tail_init (fs : filesys) (files : list string) : tail_state :=
  match files with
  | [] => []
  | f :: rest =>
      match _open fs f with
      | Some st => (f, st) :: tail_init fs rest
      | None => tail_init fs rest
      end
  end.

Section TailEngine.

(** The callback and the state it works on; the callback may raise. *)
Context {St : Type} (callback : St -> event -> St * option exn).

(** The [for ln in lines] loop: the counter is bumped before each
    call, and an exception ends the loop.  The result is the counter,
    the calls made and the state of the callback. *)
Fixpoint feed (f : string) (n : nat) (lines : list string) (s : St)
  : nat * list event * St :=
  match lines with
  | [] => (n, [], s)
  | ln :: rest =>
      match callback s (f, S n, ln) with
      | (s', None) =>
          let '(n', evs, s'') := feed f (S n) rest s' in
          (n', (f, S n, ln) :: evs, s'')
      | (s', Some _) => (S n, [(f, S n, ln)], s')
      end
  end.

(** The callback returns normally for each of the lines, in the states
    in which the loop calls it. *)
Fixpoint fed_normally (f : string) (n : nat) (lines : list string) (s : St)
  : Prop :=
  match lines with
  | [] => True
  | ln :: rest =>
      match callback s (f, S n, ln) with
      | (s', None) => fed_normally f (S n) rest s'
      | (_, Some _) => False
      end
  end.

(** What one iteration of the [for f, st in list(state.items())] loop
    leaves for [f]: the entry with the callbacks made, or its removal. *)
Inductive polled :=
| Kept (st : cursor) (evs : list event)
| Dropped.

Definition poll_file (fs : filesys) (f : string) (st : cursor) (s : St)
  : polled * St :=
  match dir fs f with
  | None => (Dropped, s)
  | Some ino =>
      let cur_size := String.length (data fs ino) in
      let reopened :=
        if cur_size <? snd (stat st) then _open fs f else Some st in
      match reopened with
      | None => (Dropped, s)
      | Some st =>
          let '(new_pos, lines) := _read_new_lines (data fs (fh st)) (pos st) in
          match lines with
          | [] => (Kept {| fh := fh st; pos := pos st; lineno := lineno st;
                           stat := (ino, cur_size) |} [], s)
          | _ :: _ =>
              let '(n, evs, s') := feed f (lineno st) lines s in
              (Kept {| fh := fh st; pos := new_pos; lineno := n;
                       stat := (ino, new_pos) |} evs, s')
          end
      end
  end.

(** One sweep of the [while True] loop over a snapshot of the file
    system. *)
Fixpoint sweep (fs : filesys) (state : tail_state) (s : St)
  : tail_state * list event * St :=
  match state with
  | [] => ([], [], s)
  | (f, st) :: rest =>
      let '(r, s1) := poll_file fs f st s in
      let '(rest', evs', s2) := sweep fs rest s1 in
      match r with
      | Dropped => (rest', evs', s2)
      | Kept st' evs => ((f, st') :: rest', evs ++ evs', s2)
      end
  end.

(** Finitely many sweeps, one per snapshot. *)
Fixpoint sweeps (snaps : list filesys) (state : tail_state) (s : St)
  : tail_state * list event * St :=
  match snaps with
  | [] => (state, [], s)
  | fs :: later =>
      let '(state', evs, s1) := sweep fs state s in
      let '(state'', evs', s2) := sweeps later state' s1 in
      (state'', evs ++ evs', s2)
  end.

(** [_tail_files(files, encoding, callback)], cut after the sweeps of
    [snaps]; [fs0] is the file system when the files are opened. *)
Definition _tail_files (fs0 : filesys) (snaps : list filesys)
  (files : list string) (s : St) : tail_state * list event * St :=
  sweeps snaps (tail_init fs0 files) s.

(** The callback returns normally on every call. *)
Definition returns : Prop := forall s e, (callback s e).2 = None.

End TailEngine.

(** A complete line as a writer appends it: no line break inside, ended
    by ["\n"] or ["\r\n"]. *)
Fixpoint is_line (s : string) : bool :=
  match s with
  | EmptyString => false
  | String c r =>
      if ascii_eqb c LF then bool_decide (r = "")
      else if ascii_eqb c CR then bool_decide (r = nl)
      else is_line r
  end.

(** The events of a sweep that belong to one file. *)
Definition events_of (f : string) (evs : list event) : list event :=
  filter (fun e => e.1.1 = f) evs.

Definition linenos (evs : list event) : list nat := map (fun e => e.1.2) evs.

(** The cursor of a file in the watched set. *)
Fixpoint cursor_of (f : string) (state : tail_state) : option cursor :=
  match state with
  | [] => None
  | (g, st) :: rest => if bool_decide (g = f) then Some st else cursor_of f rest
  end.

(** The cursor stands at the end of the file its path names. *)
Definition in_sync (fs : filesys) (f : string) (st : cursor) : Prop :=
  dir fs f = Some (fh st) /\
  pos st = String.length (data fs (fh st)) /\
  snd (stat st) = pos st.




(** The cursor [_open] makes for a file of the given size. *)
Definition reopened (ino size : nat) : cursor :=
  {| fh := ino; pos := size; lineno := 0; stat := (ino, size) |}.

(** A callback that only returns. *)
Definition quiet (s : unit) (e : event) : unit * option exn := (s, None).

Definition installed : string := "boot" +:+ nl.

(** ** Further definitions *)

(** The character is a line feed or a carriage return. *)
Definition is_break (c : ascii) : bool := ascii_eqb c LF || ascii_eqb c CR.

(** The last character of the text is a line break. *)
Fixpoint ends_in_break (s : string) : bool :=
  match s with
  | EmptyString => false
  | String c r =>
      match r with
      | EmptyString => is_break c
      | String _ _ => ends_in_break r
      end
  end.

(** The last character of the text is one of [chars]. *)
Fixpoint ends_in (chars s : string) : bool :=
  match s with
  | EmptyString => false
  | String c r =>
      match r with
      | EmptyString => str_in c chars
      | String _ _ => ends_in chars r
      end
  end.

(** The texts of a sequence of yielded or fed lines. *)
Definition texts (evs : list event) : list string := map (fun e => e.2) evs.

(** [parse_dt(s)]: an absent or empty text gives [None]; otherwise the
    three formats are tried in order, and the first for which
    [datetime.strptime(s, fmt).astimezone()] returns gives the value.  A
    [ValueError] of either call passes on to the next format, any other
    exception leaves the function, and after the last format
    [ValueError] is raised. *)
Definition dt_formats : list string :=
  ["%Y-%m-%d"; "%Y-%m-%d %H:%M"; "%Y-%m-%d %H:%M:%S"].

(** [datetime.strptime(s, fmt).astimezone()] *)
Definition parse_attempt (lib : pylib) (s fmt : string) : result datetime :=
  match strptime lib s fmt with
  | None => Raise ValueError
  | Some dt => astimezone lib dt
  end.

Fixpoint first_parse (lib : pylib) (s : string) (fmts : list string)
  : result datetime :=
  match fmts with
  | [] => Raise ValueError
  | fmt :: rest =>
      match parse_attempt lib s fmt with
      | Ok dt => Ok dt
      | Raise ValueError => first_parse lib s rest
      | Raise e => Raise e
      end
  end.

Definition parse_dt (lib : pylib) (s : option string) : result (option datetime) :=
  match s with
  | None => Ok None
  | Some text =>
      if bool_decide (text = "") then Ok None
      else
        match first_parse lib text dt_formats with
        | Ok dt => Ok (Some dt)
        | Raise e => Raise e
        end
  end.

(** The two conversions of the library give aware values. *)
Definition gives_aware (lib : pylib) : Prop :=
  (forall d local, astimezone lib d = Ok local -> is_aware local = true) /\
  (forall d, is_aware (replace_utc lib d) = true).

(** The line passes the window and the Matcher. *)
Definition accepted (lib : pylib) (cfg : config) (item : string * nat * string)
  : bool :=
  match within_window (line_timestamp lib cfg item.2) (since cfg) (until cfg) with
  | Ok true =>
      (match_line item.2 (kw_patterns cfg) (rx_patterns cfg) (match_mode cfg)).1
  | _ => false
  end.

(** A library for examples: a text parses to the naive reading 0, but
    in the formats without seconds to a reading before the first year;
    the conversions keep the reading, and no local time exists before
    the first year. *)
Definition naive_lib : pylib :=
  {| strptime := fun _ fmt =>
       if bool_decide (fmt = "%Y-%m-%d" \/ fmt = "%Y-%m-%d %H:%M")
       then Some (Naive (-1)) else Some (Naive 0);
     replace_utc := fun d => Aware (reading d);
     astimezone := fun d =>
       if (reading d <? 0)%Z then Raise ValueError else Ok (Aware (reading d));
     isoformat := fun _ => "1970-01-01T00:00:00";
     lower := fun s => s |}.

(** A configuration whose timestamps stay naive, with a lower bound. *)
Definition naive_cfg : config :=
  {| kw_patterns := [literal "ERROR"]; rx_patterns := []; match_mode := "any";
     ts_enabled := true; ts_regex := Some (literal "2025");
     ts_fmt := Some "%Y"; assume_tz := "none";
     since := Some (Aware 0); until := None;
     field_patterns := []; out_format := "jsonl" |}.

(** ** The preview of the web front end ([app.py]) *)

(** A line as a text handle opened with the default newline handling
    gives it: its terminator, if it has one, is a line feed. *)
Definition translated (l : string) : string :=
  if bool_decide (strip_terminator l = l) then l
  else strip_terminator l +:+ nl.

(** The lines [enumerate(f)] goes through. *)
Definition text_lines (text : string) : list string :=
  map translated (readlines text).

(** The [preview] list of [upload] for the [jsonl] format: of the first
    hundred lines of the result file, the ones [json.loads] reads; a
    missing file gives an empty preview.  The model speaks for result
    files whose lines the reader above decides. *)
Definition preview_jsonl (result : option string) : list dict :=
  match result with
  | None => []
  | Some text => omap json_loads (take 100 (text_lines text))
  end.

(** The arguments of one call of [emit_record]. *)
Definition record_args : Type :=
  string * nat * string * option string * string * dict.

Definition rec_of (a : record_args) : dict :=
  let '(fpath, lineno, ts_out, reason, line, extra) := a in
  jsonl_rec fpath lineno ts_out reason line extra.

Definition emit_jsonl (s : sink) (a : record_args) : sink :=
  let '(fpath, lineno, ts_out, reason, line, extra) := a in
  (emit_record "jsonl" s fpath lineno ts_out reason line extra).1.

(** The sink after a run that emitted the given records in the [jsonl]
    format. *)
Definition jsonl_run (records : list record_args) : sink :=
  fold_left emit_jsonl records sink0.


(** * Properties *)

(** ** Strings and lines *)

Section StringFacts.

Lemma ascii_eqb_true a b : ascii_eqb a b = true <-> a = b.
Proof. unfold ascii_eqb. apply bool_decide_eq_true. Qed.

Lemma str_app_cons c s t : String c s +:+ t = String c (s +:+ t).
Proof. reflexivity. Qed.

Lemma str_app_nil_r s : s +:+ "" = s.
Proof.
  induction s as [|c s IH]; [done|]. by rewrite str_app_cons, IH.
Qed.

Lemma str_app_assoc a b c : (a +:+ b) +:+ c = a +:+ (b +:+ c).
Proof.
  induction a as [|x a IH]; [done|]. by rewrite !str_app_cons, IH.
Qed.

Lemma str_length_app a b :
  String.length (a +:+ b) = String.length a + String.length b.
Proof.
  induction a as [|x a IH]; [done|]. rewrite str_app_cons. simpl. by rewrite IH.
Qed.

Lemma str_drop_app a b : str_drop (String.length a) (a +:+ b) = b.
Proof.
  induction a as [|x a IH]; [by destruct b|]. by rewrite str_app_cons.
Qed.

Lemma str_drop_all a : str_drop (String.length a) a = "".
Proof. induction a as [|x a IH]; simpl; done. Qed.

(** A complete line is cut off whole, whatever follows it. *)
Lemma readlines_line l rest :
  is_line l = true -> readlines (l +:+ rest) = l :: readlines rest.
Proof.
  induction l as [|c l IH]; [done|]. rewrite str_app_cons. simpl.
  destruct (ascii_eqb c LF) eqn:Hlf.
  - intros ->%bool_decide_eq_true. apply ascii_eqb_true in Hlf as ->. done.
  - destruct (ascii_eqb c CR) eqn:Hcr.
    + intros ->%bool_decide_eq_true. apply ascii_eqb_true in Hcr as ->. done.
    + intros Hl. rewrite (IH Hl). done.
Qed.

Lemma readlines_join lines :
  Forall (fun l => is_line l = true) lines ->
  readlines (str_join lines) = lines.
Proof.
  induction 1 as [|l ls Hl _ IH]; [done|].
  simpl. rewrite readlines_line by done. by rewrite IH.
Qed.

(** [rstrip] with the two characters backslash and n leaves a complete
    line as it is: its last character is a line feed, which is not in
    the set that is stripped. *)
Lemma rstrip_bs_n_line l : is_line l = true -> rstrip bs_n l = l.
Proof.
  induction l as [|c l IH]; [done|]. simpl.
  destruct (ascii_eqb c LF) eqn:Hlf.
  - intros ->%bool_decide_eq_true. apply ascii_eqb_true in Hlf as ->. done.
  - destruct (ascii_eqb c CR) eqn:Hcr.
    + intros ->%bool_decide_eq_true. apply ascii_eqb_true in Hcr as ->. done.
    + intros Hl. rewrite (IH Hl). destruct l; [done | done].
Qed.

(** Nothing is stripped from a text that ends in a line feed. *)
Lemma rstrip_bs_n_nl body : rstrip bs_n (body +:+ nl) = body +:+ nl.
Proof.
  induction body as [|c body IH]; [done|].
  rewrite str_app_cons. simpl. rewrite IH.
  destruct body; reflexivity.
Qed.

End StringFacts.

(** ** Line Source *)

(** C4 (what the code does). The Line Source hands on a line with its
    line feed still attached, and cuts trailing letters n and
    backslashes off a last line that has no terminator: the set given to
    [rstrip] is a backslash and the letter n, not the line feed.  The
    result differs from the terminator-stripped text of the lines. *)
Theorem iter_lines_keeps_terminator :
  (forall f idx body,
      yield_lines f idx [body +:+ nl] = [(f, idx, body +:+ nl)]) /\
  let fs := one_file "app.log" 1 two_lines in
  iter_lines fs ["app.log"]
    = [("app.log", 1, "ERROR disk full" +:+ nl); ("app.log", 2, "shutdow")] /\
  map strip_terminator (readlines two_lines) = ["ERROR disk full"; "shutdown"] /\
  (iter_lines fs ["app.log"]).*2
    <> map strip_terminator (readlines two_lines).
Proof.
  split.
  - intros f idx body. simpl. by rewrite rstrip_bs_n_nl.
  - repeat split; vm_compute; congruence.
Qed.

(** ** Matcher *)

Section MatcherFacts.

Lemma existsb_any_hit line pats :
  existsb (hits line) pats = true <-> any_hit line pats.
Proof.
  unfold any_hit. rewrite existsb_exists, Exists_exists.
  split; intros (p & Hin & Hp); exists p; split; try done;
    by apply list_elem_of_In.
Qed.

(** [reasons] holds one entry per hitting pattern, in list order. *)
Lemma reasons_of_filter tag pats line :
  reasons_of tag pats line
  = map (fun p => tag +:+ pattern p) (List.filter (hits line) pats).
Proof.
  induction pats as [|p pats IH]; [done|].
  unfold reasons_of in *. simpl. destruct (hits line p); simpl; by rewrite IH.
Qed.

Lemma find_filter_head line pats :
  find (hits line) pats = head (List.filter (hits line) pats).
Proof.
  induction pats as [|p pats IH]; [done|].
  simpl. by destruct (hits line p).
Qed.

Lemma head_reasons line kw rx :
  head (reasons_of "kw:" kw line ++ reasons_of "re:" rx line)
  = first_reason line kw rx.
Proof.
  unfold first_reason. rewrite !reasons_of_filter, !find_filter_head.
  destruct (List.filter (hits line) kw) as [|p ps]; simpl; [|done].
  by destruct (List.filter (hits line) rx).
Qed.

Lemma find_none_existsb line pats :
  find (hits line) pats = None <-> existsb (hits line) pats = false.
Proof.
  induction pats as [|p pats IH]; [done|].
  simpl. by destruct (hits line p).
Qed.

Lemma first_reason_None line kw rx :
  first_reason line kw rx = None <->
  existsb (hits line) kw = false /\ existsb (hits line) rx = false.
Proof.
  unfold first_reason. rewrite <- !find_none_existsb.
  destruct (find (hits line) kw); [split; [done | by intros [? _]]|].
  destruct (find (hits line) rx); [split; [done | by intros [_ ?]]|].
  done.
Qed.

(** [match_line] in terms of the two hit tests and the first reason. *)
Lemma match_line_unfold line kw rx mode :
  match_line line kw rx mode =
  match first_reason line kw rx with
  | None => (false, None)
  | Some first =>
      if bool_decide (mode = "all") then
        let ok := (if nonempty kw then existsb (hits line) kw else true)
                  && (if nonempty rx then existsb (hits line) rx else true) in
        (ok, if ok then Some first else None)
      else (true, Some first)
  end.
Proof.
  unfold match_line. rewrite <- head_reasons.
  destruct (reasons_of "kw:" kw line ++ reasons_of "re:" rx line); simpl; [done|].
  destruct (bool_decide (mode = "all")); [|done].
  destruct (nonempty kw), (nonempty rx); simpl; try done.
  by rewrite andb_true_r.
Qed.

End MatcherFacts.

(** C2. In [all] mode with a non-empty keyword list and a non-empty regex
    list, [match_line] reports a match exactly when some keyword pattern
    and some regex pattern both hit the line (a keyword hit without a
    regex hit is no match); the reason is absent when there is no match
    and otherwise is the first hitting pattern, keywords first. *)
Theorem match_line_all (line : string) (kw rx : list Pattern) :
  kw <> [] -> rx <> [] ->
  ((match_line line kw rx "all").1 = true
     <-> any_hit line kw /\ any_hit line rx) /\
  (any_hit line kw -> ~ any_hit line rx ->
     match_line line kw rx "all" = (false, None)) /\
  ((match_line line kw rx "all").1 = false ->
     (match_line line kw rx "all").2 = None) /\
  ((match_line line kw rx "all").1 = true ->
     (match_line line kw rx "all").2 = first_reason line kw rx /\
     is_Some (first_reason line kw rx)).
Proof.
  intros Hkw Hrx. rewrite match_line_unfold.
  rewrite <- !existsb_any_hit.
  destruct kw as [|k kw]; [done|]. destruct rx as [|r rx]; [done|].
  rewrite bool_decide_eq_true_2 by done.
  cbv [nonempty].
  destruct (first_reason line (k :: kw) (r :: rx)) as [first|] eqn:Hfirst.
  - cbv zeta.
    destruct (existsb (hits line) (k :: kw)), (existsb (hits line) (r :: rx));
      simpl; repeat split; try done; try (by intros [? ?]); eauto.
  - apply first_reason_None in Hfirst as [-> ->]. simpl.
    repeat split; try done; by intros [? ?].
Qed.

Lemma match_line_all_witness :
  [literal "ERROR"] <> [] /\ [literal "disk"] <> [] /\
  match_line "ERROR in db" [literal "ERROR"] [literal "disk"] "all"
    = (false, None).
Proof.
  split; [done|]. split; [done|].
  apply (match_line_all "ERROR in db" [literal "ERROR"] [literal "disk"]);
    [done | done | |].
  - apply existsb_any_hit. reflexivity.
  - intros H. apply existsb_any_hit in H. vm_compute in H. discriminate.
Defined.

(** C8. In [any] mode [match_line] reports a match exactly when some
    keyword pattern or some regex pattern hits the line, and the reason
    is the first hitting pattern, keywords first; with no keyword and no
    regex pattern nothing matches, whatever the mode. *)
Theorem match_line_any (line : string) (kw rx : list Pattern) (mode : string) :
  ((match_line line kw rx "any").1 = true
     <-> any_hit line kw \/ any_hit line rx) /\
  (match_line line kw rx "any").2 = first_reason line kw rx /\
  ((match_line line kw rx "any").1 = true -> is_Some (first_reason line kw rx)) /\
  match_line line [] [] mode = (false, None).
Proof.
  rewrite match_line_unfold. rewrite <- !existsb_any_hit.
  rewrite bool_decide_eq_false_2 by done.
  destruct (first_reason line kw rx) as [first|] eqn:Hfirst.
  - simpl. repeat split; try done; eauto.
    intros _. destruct (existsb (hits line) kw) eqn:Hk; [by left|]. right.
    destruct (existsb (hits line) rx) eqn:Hr; [done|].
    assert (first_reason line kw rx = None) by (by apply first_reason_None).
    congruence.
  - apply first_reason_None in Hfirst as [-> ->]. simpl.
    repeat split; try done. by intros [? | ?].
Qed.

(** ** Time window *)

Section WindowFacts.

Lemma dt_lt_comparable a b :
  is_aware a = is_aware b -> dt_lt a b = Ok (reading a <? reading b)%Z.
Proof. by destruct a, b. Qed.

End WindowFacts.

(** For values that can be ordered the check is the one of the
    specification.  With neither bound the line passes, with or without
    a timestamp.  With a bound set, the line passes exactly when it has
    a timestamp that lies within the bounds that are present, both ends
    included; a line without a timestamp is then excluded. *)
Lemma within_window_spec :
  (forall ts, within_window ts None None = Ok true) /\
  (forall ts since until,
      comparable ts since -> comparable ts until ->
      is_Some since \/ is_Some until ->
      (ts = None -> within_window ts since until = Ok false) /\
      exists passes,
        within_window ts since until = Ok passes /\
        (passes = true <->
         exists t, ts = Some t /\ in_bounds t since until)).
Proof.
  split; [done|].
  intros ts since until Hs Hu Hset.
  assert (Hnone : since <> None \/ until <> None).
  { destruct Hset as [[? ->] | [? ->]]; auto. }
  split.
  { intros ->. destruct since, until; try done. by destruct Hnone. }
  destruct ts as [t|].
  - assert (Hwin : within_window (Some t) since until =
      Ok (negb (match since with Some s => (reading t <? reading s)%Z
                | None => false end)
          && negb (match until with Some u => (reading u <? reading t)%Z
                   | None => false end))).
    { unfold within_window, dt_gt.
      destruct since as [s|], until as [u|]; simpl in Hs, Hu;
        rewrite ?(dt_lt_comparable t s), ?(dt_lt_comparable u t) by done;
        simpl.
      - destruct (reading t <? reading s)%Z; simpl; [done|].
        by destruct (reading u <? reading t)%Z.
      - by destruct (reading t <? reading s)%Z.
      - by destruct (reading u <? reading t)%Z.
      - by destruct Hnone. }
    eexists. split; [exact Hwin|].
    rewrite andb_true_iff, !negb_true_iff. unfold in_bounds. split.
    + intros [Hlo Hhi]. exists t. split; [done|].
      split; [intros s -> | intros u ->]; lia.
    + intros (t' & [= <-] & Hlo & Hhi). split.
      * destruct since as [s|]; [|done]. specialize (Hlo s eq_refl). lia.
      * destruct until as [u|]; [|done]. specialize (Hhi u eq_refl). lia.
  - exists false. split.
    + destruct since, until; try done. by destruct Hnone.
    + split; [done|]. by intros (t & ? & _).
Qed.

(** The window of January 2025, in seconds since the epoch: a line of
    15 January passes, a line of 1 February does not. *)
Lemma within_window_spec_witness :
  let since := Some (Aware 1735689600) in
  let until := Some (Aware 1738367999) in
  within_window (Some (Aware 1736935200)) since until = Ok true /\
  within_window (Some (Aware 1738368000)) since until = Ok false /\
  (exists passes,
     within_window (Some (Aware 1736935200)) since until = Ok passes /\
     (passes = true <->
      exists t, Some (Aware 1736935200) = Some t /\ in_bounds t since until)).
Proof.
  intros since until. split; [reflexivity|]. split; [reflexivity|].
  apply (proj2 within_window_spec (Some (Aware 1736935200)) since until);
    [reflexivity | reflexivity | left; eexists; reflexivity].
Defined.


(** C7 (defect). The window check does not decide every line: a naive
    timestamp against an aware bound leaves [within_window] by
    [TypeError], the comparison of the two kinds of [datetime], whether
    the bound is [since] or, with [since] absent, [until].  The bounds of
    a run are aware and a time-zone assumption other than [utc] and
    [local] leaves the timestamp naive: for the line [2025 ERROR disk]
    of such a run the check returns neither true nor false. *)
Theorem within_window_naive_raises :
  (forall w b until,
      within_window (Some (Naive w)) (Some (Aware b)) until = Raise TypeError) /\
  (forall w b,
      within_window (Some (Naive w)) None (Some (Aware b)) = Raise TypeError) /\
  line_timestamp naive_lib naive_cfg "2025 ERROR disk" = Some (Naive 0) /\
  since naive_cfg = Some (Aware 0) /\
  within_window (line_timestamp naive_lib naive_cfg "2025 ERROR disk")
                (since naive_cfg) (until naive_cfg) = Raise TypeError /\
  (forall passes,
      within_window (line_timestamp naive_lib naive_cfg "2025 ERROR disk")
                    (since naive_cfg) (until naive_cfg) <> Ok passes).
Proof.
  split; [reflexivity|]. split; [reflexivity|].
  split; [reflexivity|]. split; [reflexivity|].
  split; [reflexivity|]. intros passes. vm_compute. discriminate.
Qed.
(** ** File Resolver *)

Section ResolverFacts.

Context (expand : string -> string)
        (glob : string -> list string)
        (Path : string -> string)
        (is_file : string -> bool)
        (path_le : relation string)
        `{!RelDecision path_le}.

Lemma StronglySorted_filter (P : string -> Prop) `{forall x, Decision (P x)} l :
  StronglySorted path_le l -> StronglySorted path_le (filter P l).
Proof.
  induction l as [|x l IH]; [done|].
  rewrite StronglySorted_cons. intros [Hx Hl]. rewrite filter_cons.
  destruct (decide (P x)); [|by apply IH].
  apply StronglySorted_cons. split; [|by apply IH].
  apply Forall_forall. intros y Hy. apply list_elem_of_filter in Hy as [_ Hy].
  by eapply Forall_forall in Hx.
Qed.

Lemma elem_of_candidates include f :
  f ∈ candidates expand glob Path is_file include <->
  exists pattern p, pattern ∈ include /\ p ∈ glob (expand pattern) /\
                    f = Path p /\ is_file f = true.
Proof.
  unfold candidates. rewrite list_elem_of_In, in_flat_map. split.
  - intros (pattern & Hpat & Hf). apply list_elem_of_In in Hf.
    apply list_elem_of_filter in Hf as [Hfile Hf].
    apply list_elem_of_In, in_map_iff in Hf as (p & <- & Hp).
    exists pattern, p. by rewrite !list_elem_of_In.
  - intros (pattern & p & Hpat & Hp & -> & Hfile).
    exists pattern. rewrite <- list_elem_of_In. split; [done|].
    apply list_elem_of_In, list_elem_of_filter. split; [done|].
    apply list_elem_of_In, in_map_iff. exists p. by rewrite <- list_elem_of_In.
Qed.

Lemma elem_of_excluded exclude f :
  f ∈ flat_map (fun ex => map Path (glob (expand ex))) exclude <->
  exists ex p, ex ∈ exclude /\ p ∈ glob (expand ex) /\ f = Path p.
Proof.
  rewrite list_elem_of_In, in_flat_map. split.
  - intros (ex & Hex & Hf). apply in_map_iff in Hf as (p & <- & Hp).
    exists ex, p. by rewrite !list_elem_of_In.
  - intros (ex & p & Hex & Hp & ->). exists ex.
    rewrite <- list_elem_of_In. split; [done|].
    apply in_map_iff. exists p. by rewrite <- list_elem_of_In.
Qed.

Context `{!Transitive path_le} `{!Total path_le}.
Hypothesis Path_idem : forall p, Path (Path p) = Path p.

Lemma elem_of_sorted_candidates include f :
  f ∈ merge_sort path_le (remove_dups (map Path (candidates expand glob Path is_file include)))
  <-> f ∈ candidates expand glob Path is_file include.
Proof.
  rewrite merge_sort_Permutation, elem_of_remove_dups.
  rewrite list_elem_of_In, in_map_iff. split.
  - intros (g & <- & Hg). apply list_elem_of_In in Hg.
    apply elem_of_candidates in Hg as (pattern & p & Hpat & Hp & -> & Hfile).
    rewrite Path_idem. apply elem_of_candidates. eauto 6.
  - intros Hf. exists f. split; [|by apply list_elem_of_In].
    apply elem_of_candidates in Hf as (pattern & p & _ & _ & -> & _).
    apply Path_idem.
Qed.

(** C9. The file set [find_files] returns holds exactly the normal
    forms of the include candidates that are regular files and that no
    exclude pattern produces; it has no duplicate and is sorted by the
    order on paths.  [main] ends with status 1 exactly when that set is
    empty, and scans it otherwise. *)
Theorem find_files_spec (include exclude : list string) :
  let files := find_files expand glob Path is_file path_le include exclude in
  Forall (fun f => is_file f = true) files /\
  NoDup files /\
  StronglySorted path_le files /\
  (forall ex p, ex ∈ exclude -> p ∈ glob (expand ex) -> Path p ∉ files) /\
  (forall f, f ∈ files <->
     (exists pattern p, pattern ∈ include /\ p ∈ glob (expand pattern) /\
                        f = Path p /\ is_file f = true) /\
     (forall ex p, ex ∈ exclude -> p ∈ glob (expand ex) -> f <> Path p)) /\
  (main_find_files expand glob Path is_file path_le include exclude = Exit 1
     <-> files = []) /\
  (files <> [] ->
     main_find_files expand glob Path is_file path_le include exclude
     = Scan files).
Proof.
  intros files.
  set (sorted := merge_sort path_le (remove_dups (map Path (candidates expand glob Path is_file include)))).
  assert (Hfiles : files =
    if nonempty exclude
    then filter (fun f => f ∉ flat_map (fun ex => map Path (glob (expand ex)))
                                       exclude) sorted
    else sorted) by done.
  assert (Hnd : NoDup sorted).
  { unfold sorted. rewrite merge_sort_Permutation. apply NoDup_remove_dups. }
  assert (Hss : StronglySorted path_le sorted).
  { apply StronglySorted_merge_sort; done. }
  assert (Hmem : forall f, f ∈ files <->
     f ∈ candidates expand glob Path is_file include /\
     (forall ex p, ex ∈ exclude -> p ∈ glob (expand ex) -> f <> Path p)).
  { intros f. rewrite Hfiles. destruct exclude as [|ex0 exs]; simpl.
    - fold sorted. unfold sorted. rewrite elem_of_sorted_candidates.
      split; [|by intros [? _]]. intros Hf. split; [done|].
      intros ex p Hex. by apply elem_of_nil in Hex.
    - rewrite list_elem_of_filter. unfold sorted.
      rewrite elem_of_sorted_candidates.
      change (map Path (glob (expand ex0)) ++
              flat_map (fun ex => map Path (glob (expand ex))) exs)
        with (flat_map (fun ex => map Path (glob (expand ex))) (ex0 :: exs)).
      rewrite elem_of_excluded. split.
      + intros [Hno Hf]. split; [done|]. intros ex p Hex Hp ->.
        apply Hno. eauto.
      + intros [Hf Hno]. split; [|done].
        intros (ex & p & Hex & Hp & ->). by eapply Hno. }
  repeat split.
  - apply Forall_forall. intros f Hf. apply Hmem in Hf as [Hf _].
    by apply elem_of_candidates in Hf as (? & ? & _ & _ & _ & ?).
  - rewrite Hfiles. destruct (nonempty exclude); [|done]. by apply NoDup_filter.
  - rewrite Hfiles. destruct (nonempty exclude); [|done].
    by apply StronglySorted_filter.
  - intros ex p Hex Hp Hin. apply Hmem in Hin as [_ Hno]. by eapply Hno.
  - apply Hmem in H as [Hf _]. by apply elem_of_candidates.
  - by apply Hmem in H as [_ Hno].
  - intros [Hcand Hno]. apply Hmem. split; [|done]. by apply elem_of_candidates.
  - unfold main_find_files. fold files. by destruct files.
  - unfold main_find_files. fold files. by intros ->.
  - unfold main_find_files. fold files. by destruct files.
Qed.

End ResolverFacts.

Lemma find_files_spec_witness :
  let files :=
    find_files id demo_glob id demo_is_file String.le ["logs/*"] ["logs/*.1"] in
  files = ["logs/app.log"; "logs/web.log"] /\
  Forall (fun f => demo_is_file f = true) files /\
  NoDup files /\
  StronglySorted String.le files.
Proof.
  split; [vm_compute; reflexivity|].
  pose proof (find_files_spec id demo_glob id demo_is_file String.le
                (fun p => eq_refl) ["logs/*"] ["logs/*.1"]) as H.
  simpl in H. destruct H as (H1 & H2 & H3 & _). auto.
Defined.

(** ** Dictionaries *)

Section DictFacts.

Lemma keys_dict_set k v d k' :
  k' ∈ keys (dict_set k v d) <-> k' = k \/ k' ∈ keys d.
Proof.
  unfold keys. induction d as [|[k0 v0] d IH]; simpl.
  - rewrite list_elem_of_singleton, elem_of_nil. tauto.
  - destruct (bool_decide (k0 = k)) eqn:Hk; simpl.
    + apply bool_decide_eq_true in Hk as ->. rewrite !elem_of_cons. tauto.
    + rewrite !elem_of_cons, IH. tauto.
Qed.

Lemma NoDup_dict_set k v d : NoDup (keys d) -> NoDup (keys (dict_set k v d)).
Proof.
  unfold keys. induction d as [|[k0 v0] d IH]; simpl.
  - intros _. apply NoDup_singleton.
  - rewrite NoDup_cons. intros [Hk0 Hd].
    destruct (bool_decide (k0 = k)) eqn:Hk; simpl.
    + apply bool_decide_eq_true in Hk as ->. by apply NoDup_cons.
    + apply bool_decide_eq_false in Hk. apply NoDup_cons. split; [|auto].
      intros Hin. apply (keys_dict_set k v d k0) in Hin as [?|?]; done.
Qed.

Lemma dict_get_set_eq k v d : dict_get k (dict_set k v d) = Some v.
Proof.
  induction d as [|[k0 v0] d IH]; simpl.
  - by rewrite bool_decide_eq_true_2.
  - destruct (bool_decide (k0 = k)) eqn:Hk; simpl.
    + by rewrite bool_decide_eq_true_2.
    + by rewrite Hk.
Qed.

Lemma dict_get_set_ne k k' v d :
  k' <> k -> dict_get k' (dict_set k v d) = dict_get k' d.
Proof.
  intros Hne. induction d as [|[k0 v0] d IH]; simpl.
  - by rewrite bool_decide_eq_false_2.
  - destruct (bool_decide (k0 = k)) eqn:Hk; simpl.
    + apply bool_decide_eq_true in Hk as ->.
      by rewrite !bool_decide_eq_false_2.
    + by rewrite IH.
Qed.

Lemma dict_get_None k d : dict_get k d = None <-> k ∉ keys d.
Proof.
  unfold keys. induction d as [|[k0 v0] d IH]; simpl.
  - split; [intros _; apply not_elem_of_nil | done].
  - rewrite not_elem_of_cons. destruct (bool_decide (k0 = k)) eqn:Hk.
    + apply bool_decide_eq_true in Hk. split; [done | by intros [? _]].
    + apply bool_decide_eq_false in Hk. rewrite IH.
      split; [done | by intros [_ ?]].
Qed.

Lemma dict_get_None_inv k d : dict_get k d <> None -> k ∈ keys d.
Proof.
  intros H. destruct (decide (k ∈ keys d)) as [|Hn]; [done|].
  by apply dict_get_None in Hn.
Qed.

Lemma keys_dict_update d items k :
  k ∈ keys (dict_update d items) <-> k ∈ keys d \/ k ∈ keys items.
Proof.
  unfold dict_update. revert d.
  induction items as [|[k0 v0] items IH]; intros d; simpl.
  - unfold keys. simpl. rewrite elem_of_nil. tauto.
  - rewrite IH, keys_dict_set.
    change (keys ((k0, v0) :: items)) with (k0 :: keys items).
    rewrite elem_of_cons. tauto.
Qed.

Lemma NoDup_dict_update d items :
  NoDup (keys d) -> NoDup (keys (dict_update d items)).
Proof.
  unfold dict_update. revert d.
  induction items as [|[k0 v0] items IH]; intros d Hd; simpl; [done|].
  apply IH. by apply NoDup_dict_set.
Qed.

(** An update overrides: the value of a key of [items] is the one
    [items] gives, every other key keeps its value. *)
Lemma dict_get_update d items k :
  NoDup (keys items) ->
  dict_get k (dict_update d items)
  = match dict_get k items with
    | Some v => Some v
    | None => dict_get k d
    end.
Proof.
  unfold dict_update. revert d.
  induction items as [|[k0 v0] items IH]; intros d; simpl; [done|].
  unfold keys. simpl. rewrite NoDup_cons. intros [Hk0 Hnd].
  rewrite IH by done.
  destruct (bool_decide (k0 = k)) eqn:Hk.
  - apply bool_decide_eq_true in Hk as ->.
    apply dict_get_None in Hk0. by rewrite Hk0, dict_get_set_eq.
  - apply bool_decide_eq_false in Hk.
    destruct (dict_get k items); [done|]. by apply dict_get_set_ne.
Qed.

(** An update leaves the keys that are there in their places. *)
Lemma keys_dict_set_prefix k v d :
  exists more, keys (dict_set k v d) = keys d ++ more.
Proof.
  unfold keys. induction d as [|[k0 v0] d [more IH]]; simpl.
  - by exists [k].
  - destruct (bool_decide (k0 = k)) eqn:Hk.
    + apply bool_decide_eq_true in Hk as ->. exists []. by rewrite app_nil_r.
    + exists more. rewrite !fmap_cons, IH. done.
Qed.

Lemma keys_dict_update_prefix d items :
  exists more, keys (dict_update d items) = keys d ++ more.
Proof.
  unfold dict_update. revert d.
  induction items as [|[k0 v0] items IH]; intros d; simpl.
  - exists []. by rewrite app_nil_r.
  - destruct (IH (dict_set k0 v0 d)) as [more ->].
    destruct (keys_dict_set_prefix k0 v0 d) as [more' ->].
    exists (more' ++ more). by rewrite app_assoc.
Qed.

Lemma extract_fields_NoDup pats line : NoDup (keys (extract_fields pats line)).
Proof.
  unfold extract_fields.
  assert (H : forall acc : dict, NoDup (keys acc) ->
    NoDup (keys (fold_left
      (fun extra ptn =>
         match search ptn line with
         | Some m => dict_update extra (named_groups m)
         | None => extra
         end) pats acc))).
  { induction pats as [|p pats IH]; intros acc Hacc; simpl; [done|].
    apply IH. destruct (search p line); [|done]. by apply NoDup_dict_update. }
  apply H. apply NoDup_nil_2.
Qed.

End DictFacts.

(** ** Record Sink *)

Section SinkFacts.

Lemma str_in_app c a b : str_in c (a +:+ b) = str_in c a || str_in c b.
Proof.
  induction a as [|x a IH]; [done|].
  rewrite str_app_cons. simpl. by rewrite IH, orb_assoc.
Qed.

Lemma json_escape_char_no_LF c : str_in LF (json_escape_char c) = false.
Proof. destruct c as [[] [] [] [] [] [] [] []]; vm_compute; reflexivity. Qed.

Lemma json_escape_no_LF s : str_in LF (json_escape s) = false.
Proof.
  induction s as [|c s IH]; [done|].
  simpl. by rewrite str_in_app, json_escape_char_no_LF, IH.
Qed.

Lemma json_string_no_LF s : str_in LF (json_string s) = false.
Proof.
  unfold json_string. simpl. by rewrite str_in_app, json_escape_no_LF.
Qed.

Lemma decimal_no_LF n : str_in LF (decimal n) = false.
Proof.
  unfold decimal. induction (Nat.to_uint n) as [|d IH|d IH|d IH|d IH|d IH
    |d IH|d IH|d IH|d IH|d IH]; simpl; done.
Qed.

Lemma json_value_no_LF v : str_in LF (json_value v) = false.
Proof.
  destruct v; simpl; [apply json_string_no_LF | apply decimal_no_LF | done].
Qed.

Lemma str_join_with_no_LF sep parts :
  str_in LF sep = false ->
  Forall (fun p => str_in LF p = false) parts ->
  str_in LF (str_join_with sep parts) = false.
Proof.
  intros Hsep. induction 1 as [|p ps Hp Hps IH]; [done|].
  simpl. destruct ps as [|q ps]; [done|].
  by rewrite !str_in_app, Hp, Hsep, IH.
Qed.

(** The text [json.dumps] returns holds no line feed. *)
Lemma json_dumps_no_LF d : str_in LF (json_dumps d) = false.
Proof.
  unfold json_dumps. rewrite !str_in_app.
  rewrite str_join_with_no_LF; [done | done |].
  apply Forall_forall. intros m Hm.
  apply list_elem_of_In, in_map_iff in Hm as ([k v] & <- & _).
  unfold json_member. cbn [fst snd].
  by rewrite !str_in_app, json_string_no_LF, json_value_no_LF.
Qed.

Lemma keys_jsonl_rec fpath lineno ts_out reason line extra k :
  k ∈ keys (jsonl_rec fpath lineno ts_out reason line extra)
  <-> k ∈ fixed_keys \/ k ∈ keys extra.
Proof.
  unfold jsonl_rec. destruct extra as [|kv extra].
  - simpl. unfold keys. simpl. split; [by left|].
    intros [?|H]; [done|]. by apply elem_of_nil in H.
  - cbv [nonempty]. by rewrite keys_dict_update.
Qed.

Lemma elem_of_sorted_set l x : x ∈ sorted_set l <-> x ∈ l.
Proof.
  unfold sorted_set. by rewrite merge_sort_Permutation, elem_of_remove_dups.
Qed.

End SinkFacts.

(** C3 (what the code does). The [jsonl] branch writes, for every
    record, the JSON object with the fixed keys and the keys of the
    extracted fields, followed by a backslash and the letter n.  What is
    written holds no line feed at all: no record ends in a newline
    character, and the records of a run share one output line. *)
Theorem jsonl_record_has_no_newline (s : sink) (fpath : string) (lineno : nat)
  (ts_out : string) (reason : option string) (line : string) (extra : dict) :
  let rec := jsonl_rec fpath lineno ts_out reason line extra in
  let written := json_dumps rec +:+ bs_n in
  emit_record "jsonl" s fpath lineno ts_out reason line extra
    = ({| out := out s +:+ written; csv_writer := csv_writer s;
          dynamic_fields := dynamic_fields s; matched := S (matched s) |},
       None) /\
  (forall k, k ∈ keys rec <-> k ∈ fixed_keys \/ k ∈ keys extra) /\
  str_in LF written = false /\
  (forall text, written <> text +:+ nl).
Proof.
  intros rec written.
  assert (Hno : str_in LF written = false).
  { unfold written. by rewrite str_in_app, json_dumps_no_LF. }
  split; [reflexivity|]. split; [|split].
  - intros k. apply keys_jsonl_rec.
  - done.
  - intros text Heq. rewrite Heq, str_in_app in Hno.
    by rewrite orb_true_r in Hno.
Qed.

(** Two accepted lines of one file, written by the [jsonl] sink: the
    output is one line of text. *)
Example jsonl_two_records :
  let items := iter_lines (one_file "app.log" 1 ("ERROR a" +:+ nl +:+ "ERROR b" +:+ nl))
                          ["app.log"] in
  let run := initial_pass demo_lib (demo_cfg "jsonl" []) items sink0 0 in
  matched run.1.1 = 2 /\ readlines (out run.1.1) = [out run.1.1].
Proof. vm_compute. done. Qed.

(** The first record of a CSV run fixes the header: the four leading
    columns, the sorted field names seen so far, then [line]. *)
Lemma csv_first_record (s : sink) (fpath : string) (lineno : nat)
  (ts_out : string) (reason : option string) (line : string) (extra : dict) :
  csv_writer s = None ->
  let seen := list_union (dynamic_fields s) (keys extra) in
  let header := ["file"; "lineno"; "timestamp"; "reason"] ++ sorted_set seen
                ++ ["line"] in
  let row := csv_row fpath lineno ts_out reason line extra in
  emit_record "csv" s fpath lineno ts_out reason line extra
    = ({| out := out s +:+ csv_line header +:+
                 csv_line (map csv_cell
                   (map (fun key => default (PStr "") (dict_get key row)) header));
          csv_writer := Some header;
          dynamic_fields := seen; matched := S (matched s) |}, None).
Proof.
  intros Hw seen header row. unfold emit_record.
  rewrite bool_decide_eq_false_2, bool_decide_eq_true_2 by done.
  rewrite Hw. fold seen. fold header. fold row.
  unfold _dict_to_list.
  assert (forallb (fun k => bool_decide (k ∈ header)) (keys row) = true) as ->.
  { apply forallb_forall. intros k Hk. apply bool_decide_eq_true.
    apply list_elem_of_In in Hk. unfold row, csv_row in Hk.
    apply keys_dict_update in Hk as [Hk | Hk].
    - unfold header. unfold keys in Hk. simpl in Hk.
      rewrite !elem_of_cons in Hk. rewrite !elem_of_app, !elem_of_cons.
      destruct Hk as [->|[->|[->|[->|[->|Hk]]]]]; auto 10;
        try (by apply elem_of_nil in Hk).
    - unfold header. rewrite !elem_of_app, elem_of_sorted_set.
      right. left. unfold seen. apply list_elem_of_union. by right. }
  by rewrite str_app_assoc.
Qed.

(** C5 (what the code does). Once the header is written, a record
    carrying a field name that is not in the header is not written: the
    writer raises [ValueError] and nothing is added to the output. *)
Theorem csv_new_field_raises (s : sink) (header : list string)
  (fpath : string) (lineno : nat) (ts_out : string) (reason : option string)
  (line : string) (extra : dict) (k : string) :
  csv_writer s = Some header -> k ∈ keys extra -> k ∉ header ->
  emit_record "csv" s fpath lineno ts_out reason line extra
    = ({| out := out s; csv_writer := Some header;
          dynamic_fields := list_union (dynamic_fields s) (keys extra);
          matched := S (matched s) |}, Some ValueError).
Proof.
  intros Hw Hk Hnot. unfold emit_record.
  rewrite bool_decide_eq_false_2, bool_decide_eq_true_2 by done.
  rewrite Hw. unfold _dict_to_list.
  assert (forallb (fun k => bool_decide (k ∈ header))
            (keys (csv_row fpath lineno ts_out reason line extra)) = false) as ->.
  { apply not_true_is_false. intros Hall.
    rewrite forallb_forall in Hall. specialize (Hall k).
    apply Hnot. eapply bool_decide_eq_true, Hall.
    apply list_elem_of_In. unfold csv_row. apply keys_dict_update. by right. }
  done.
Qed.

Lemma csv_new_field_raises_witness :
  let first := (emit_record "csv" sink0 "app.log" 1 "" (Some "kw:ERROR")
                            "ERROR disk" []).1 in
  csv_writer first = Some ["file"; "lineno"; "timestamp"; "reason"; "line"] /\
  emit_record "csv" first "app.log" 3 "" (Some "kw:ERROR") "ERROR user=bob"
              [("user", PStr "bob")]
    = ({| out := out first;
          csv_writer := Some ["file"; "lineno"; "timestamp"; "reason"; "line"];
          dynamic_fields := ["user"]; matched := 2 |}, Some ValueError).
Proof.
  split; [reflexivity|].
  apply (csv_new_field_raises
           (emit_record "csv" sink0 "app.log" 1 "" (Some "kw:ERROR")
                        "ERROR disk" []).1
           ["file"; "lineno"; "timestamp"; "reason"; "line"]
           "app.log" 3 "" (Some "kw:ERROR") "ERROR user=bob"
           [("user", PStr "bob")] "user").
  - reflexivity.
  - apply list_elem_of_here.
  - intros H. vm_compute in H. repeat (apply elem_of_cons in H as [H|H]; [discriminate|]).
    by apply elem_of_nil in H.
Defined.

(** ** JSON text, written and read back *)

Section JsonFacts.

(** One written character of a string is read back as that character. *)
Lemma lex_escape_char c acc r :
  lex (InStr acc) (json_escape_char c +:+ r) = lex (InStr (snoc_char acc c)) r.
Proof. destruct c as [[] [] [] [] [] [] [] []]; reflexivity. Qed.

Lemma lex_string_body s acc r :
  lex (InStr acc) (json_escape s +:+ String DQ r)
  = cons (TStr (acc +:+ s)) <$> lex Top r.
Proof.
  revert acc. induction s as [|c s IH]; intros acc.
  - simpl. by rewrite str_app_nil_r.
  - simpl. rewrite str_app_assoc, lex_escape_char, IH.
    unfold snoc_char. by rewrite str_app_assoc.
Qed.

Lemma lex_json_string s r :
  lex Top (json_string s +:+ r) = cons (TStr s) <$> lex Top r.
Proof.
  unfold json_string. rewrite str_app_cons, str_app_assoc.
  change (String DQ "" +:+ r) with (String DQ r).
  change (lex Top (String DQ (json_escape s +:+ String DQ r)))
    with (lex (InStr "") (json_escape s +:+ String DQ r)).
  by rewrite lex_string_body.
Qed.

Lemma lex_num_step d c r :
  is_digit c = true ->
  lex (InNum d) (String c r) = lex (InNum (snoc_char d c)) r.
Proof. intros Hc. simpl. by rewrite Hc. Qed.

Lemma lex_top_digit c r :
  is_digit c = true ->
  lex Top (String c r) = lex (InNum (String c "")) r.
Proof. intros Hc. simpl. by rewrite Hc. Qed.

Lemma lex_digits ds d r :
  all_digits ds = true ->
  lex (InNum d) (ds +:+ r) = lex (InNum (d +:+ ds)) r.
Proof.
  revert d. induction ds as [|c ds IH]; intros d.
  - intros _. by rewrite str_app_nil_r.
  - intros H. cbn [all_digits] in H. apply andb_true_iff in H as [Hc Hds].
    rewrite str_app_cons.
    rewrite lex_num_step, IH by done.
    unfold snoc_char. by rewrite str_app_assoc.
Qed.

Lemma lex_num_stop d c r :
  is_digit c = false ->
  lex (InNum d) (String c r) = cons (TInt d) <$> lex Top (String c r).
Proof. intros Hc. simpl. by rewrite Hc. Qed.

Lemma string_of_uint_digits d : all_digits (NilEmpty.string_of_uint d) = true.
Proof. induction d; simpl; done. Qed.

Lemma to_uint_normal n : Decimal.unorm (Nat.to_uint n) = Nat.to_uint n.
Proof.
  rewrite <- DecimalNat.Unsigned.to_of.
  by rewrite DecimalNat.Unsigned.of_to.
Qed.

Lemma to_uint_nonnil n : Nat.to_uint n <> Decimal.Nil.
Proof.
  rewrite <- to_uint_normal. unfold Decimal.unorm.
  by destruct (Decimal.nzhead (Nat.to_uint n)).
Qed.

Lemma decimal_digits n :
  exists c ds, decimal n = String c ds /\ is_digit c = true /\
               all_digits ds = true.
Proof.
  unfold decimal. pose proof (string_of_uint_digits (Nat.to_uint n)) as Hall.
  pose proof (to_uint_nonnil n) as Hnil.
  destruct (Nat.to_uint n) eqn:Hn; [done|..]; simpl in *;
    eexists _, _; (split; [reflexivity|]); split; done.
Qed.

Lemma lex_decimal n c r :
  is_digit c = false ->
  lex Top (decimal n +:+ String c r)
  = cons (TInt (decimal n)) <$> lex Top (String c r).
Proof.
  intros Hc. destruct (decimal_digits n) as (c0 & ds & -> & Hc0 & Hds).
  rewrite str_app_cons, lex_top_digit, lex_digits by done.
  by rewrite lex_num_stop.
Qed.

Lemma lex_json_value v c r :
  is_digit c = false ->
  lex Top (json_value v +:+ String c r)
  = cons (tok_of v) <$> lex Top (String c r).
Proof.
  intros Hc. destruct v as [s|n|]; simpl.
  - apply lex_json_string.
  - by apply lex_decimal.
  - reflexivity.
Qed.

Lemma lex_json_member k v c r :
  is_digit c = false ->
  lex Top (json_member (k, v) +:+ String c r)
  = (fun ts => TStr k :: TColon :: tok_of v :: ts) <$> lex Top (String c r).
Proof.
  intros Hc. unfold json_member. cbn [fst snd].
  rewrite !str_app_assoc, lex_json_string.
  change (lex Top (": " +:+ json_value v +:+ String c r))
    with (cons TColon <$> lex Top (json_value v +:+ String c r)).
  rewrite lex_json_value by done.
  by destruct (lex Top (String c r)).
Qed.

Lemma lex_members d :
  lex Top (str_join_with ", " (map json_member d) +:+ "}")
  = Some (members_tokens d ++ [TRBrace]).
Proof.
  induction d as [|[k v] d IH]; [done|].
  destruct d as [|m d].
  - change (str_join_with ", " (map json_member [(k, v)]))
      with (json_member (k, v)).
    by rewrite lex_json_member.
  - change (str_join_with ", " (map json_member ((k, v) :: m :: d)))
      with (json_member (k, v) +:+ ", " +:+
            str_join_with ", " (map json_member (m :: d))).
    rewrite !str_app_assoc.
    change (", " +:+ str_join_with ", " (map json_member (m :: d)) +:+ "}")
      with (String "," (String " "
             (str_join_with ", " (map json_member (m :: d)) +:+ "}"))).
    rewrite lex_json_member by done.
    change (lex Top (String "," (String " "
             (str_join_with ", " (map json_member (m :: d)) +:+ "}"))))
      with (cons TComma <$>
            lex Top (str_join_with ", " (map json_member (m :: d)) +:+ "}")).
    rewrite IH. done.
Qed.

Lemma lex_json_dumps d :
  lex Top (json_dumps d) = Some (TLBrace :: members_tokens d ++ [TRBrace]).
Proof.
  unfold json_dumps.
  change (lex Top ("{" +:+ str_join_with ", " (map json_member d) +:+ "}"))
    with (cons TLBrace <$>
          lex Top (str_join_with ", " (map json_member d) +:+ "}")).
  by rewrite lex_members.
Qed.

Lemma parse_int_decimal n : parse_int (decimal n) = Some n.
Proof.
  unfold parse_int, decimal. rewrite NilEmpty.usu.
  rewrite bool_decide_eq_true_2 by apply to_uint_normal.
  by rewrite DecimalNat.Unsigned.of_to.
Qed.

Lemma value_of_tok v : value_of (tok_of v) = Some v.
Proof. destruct v; simpl; [done | by rewrite parse_int_decimal | done]. Qed.

Lemma parse_members_tokens d :
  d <> [] -> parse_members (members_tokens d ++ [TRBrace]) = Some d.
Proof.
  induction d as [|[k v] d IH]; [done|]. intros _.
  simpl. rewrite value_of_tok. destruct d as [|m d]; [done|].
  cbn [app]. rewrite IH by done. done.
Qed.

Lemma dict_set_fresh k v d : k ∉ keys d -> dict_set k v d = d ++ [(k, v)].
Proof.
  unfold keys. induction d as [|[k0 v0] d IH]; [done|].
  rewrite fmap_cons, not_elem_of_cons. intros [Hne Hd]. simpl.
  rewrite bool_decide_eq_false_2 by done. by rewrite IH.
Qed.

Lemma dict_update_fresh acc d :
  NoDup (keys (acc ++ d)) -> dict_update acc d = acc ++ d.
Proof.
  unfold dict_update. revert acc.
  induction d as [|[k v] d IH]; intros acc Hnd; simpl.
  - by rewrite app_nil_r.
  - replace (acc ++ (k, v) :: d) with ((acc ++ [(k, v)]) ++ d) in *
      by (by rewrite <- app_assoc).
    rewrite dict_set_fresh.
    + by apply IH.
    + unfold keys in *. rewrite !fmap_app in Hnd.
      apply NoDup_app in Hnd as [Hnd _].
      apply NoDup_app in Hnd as (_ & Hdisj & _).
      intros Hin. apply (Hdisj k Hin). simpl. apply list_elem_of_here.
Qed.

(** Reading back what [json.dumps] wrote for a dictionary gives the
    dictionary. *)
Lemma json_roundtrip d :
  NoDup (keys d) -> json_loads (json_dumps d) = Some d.
Proof.
  intros Hnd. unfold json_loads. rewrite lex_json_dumps.
  destruct d as [|m d]; [done|].
  assert (members_tokens (m :: d) ++ [TRBrace] <> [TRBrace]) as Hne.
  { destruct m as [k v]. simpl. done. }
  destruct (members_tokens (m :: d) ++ [TRBrace]) as [|t ts] eqn:Hts.
  { destruct m; done. }
  assert (parse_members (t :: ts) = Some (m :: d)) as Hp.
  { rewrite <- Hts. by apply parse_members_tokens. }
  destruct t; try (destruct m; simpl in Hts; congruence).
  rewrite Hp. f_equal. by apply (dict_update_fresh []).
Qed.

End JsonFacts.

(** ** The JSONL record *)

Section RecordFacts.

Lemma fixed_NoDup fpath lineno ts_out reason line :
  NoDup (keys [("file", PStr fpath); ("lineno", PInt lineno);
               ("timestamp", PStr ts_out); ("reason", of_opt reason);
               ("line", PStr line)]).
Proof.
  change (NoDup fixed_keys). apply (bool_decide_unpack _). by vm_compute.
Qed.

Lemma jsonl_rec_NoDup fpath lineno ts_out reason line extra :
  NoDup (keys (jsonl_rec fpath lineno ts_out reason line extra)).
Proof.
  unfold jsonl_rec. destruct (nonempty extra).
  - apply NoDup_dict_update, fixed_NoDup.
  - apply fixed_NoDup.
Qed.

(** The value the record holds for a key: the extracted one when the
    key is an extracted field name, the fixed one otherwise. *)
Lemma jsonl_rec_get fpath lineno ts_out reason line extra k :
  NoDup (keys extra) ->
  dict_get k (jsonl_rec fpath lineno ts_out reason line extra)
  = match dict_get k extra with
    | Some v => Some v
    | None => dict_get k [("file", PStr fpath); ("lineno", PInt lineno);
                          ("timestamp", PStr ts_out); ("reason", of_opt reason);
                          ("line", PStr line)]
    end.
Proof.
  intros Hnd. unfold jsonl_rec. destruct extra as [|kv extra]; [done|].
  cbv [nonempty]. by apply dict_get_update.
Qed.

Lemma jsonl_rec_keys_prefix fpath lineno ts_out reason line extra :
  exists more,
    keys (jsonl_rec fpath lineno ts_out reason line extra) = fixed_keys ++ more.
Proof.
  unfold jsonl_rec. destruct (nonempty extra).
  - apply keys_dict_update_prefix.
  - exists []. done.
Qed.

(** An accepted line reaches the sink with the fields extracted from
    it. *)
Lemma process_line_accepted lib cfg s fpath lineno line reason :
  within_window (line_timestamp lib cfg line) (since cfg) (until cfg)
    = Ok true ->
  match_line line (kw_patterns cfg) (rx_patterns cfg) (match_mode cfg)
    = (true, reason) ->
  process_line lib cfg s fpath lineno line
  = emit_record (out_format cfg) s fpath lineno
      (timestamp_text lib (line_timestamp lib cfg line)) reason line
      (extract_fields (field_patterns cfg) line).
Proof. intros Hw Hm. unfold process_line. by rewrite Hw, Hm. Qed.

End RecordFacts.

(** The claim of C6 fails for a field pattern whose group is named
    [line]: what is read back as [line] is the captured text, not the
    line. *)
Lemma jsonl_roundtrip_collision :
  let line := "ERROR disk full" in
  let extra := extract_fields [level_pattern] line in
  let written := json_dumps (jsonl_rec "app.log" 1 "" (Some "kw:ERROR") line extra) in
  (process_line demo_lib (demo_cfg "jsonl" [level_pattern]) sink0 "app.log" 1 line).1
    = {| out := written +:+ bs_n; csv_writer := None; dynamic_fields := [];
         matched := 1 |} /\
  ~ recovers written "app.log" 1 "" (Some "kw:ERROR") line extra.
Proof.
  split; [vm_compute; reflexivity|].
  intros (d & Hload & _ & _ & _ & _ & Hline & _).
  vm_compute in Hload. injection Hload as <-.
  vm_compute in Hline. discriminate.
Qed.

(** C6 (amended). For a record whose extracted field names differ from
    the five fixed keys, the JSON object the sink writes reads back as
    the record itself: the fixed values and every extracted field are
    recovered unmodified. *)
Theorem jsonl_roundtrip (s : sink) (fpath : string) (lineno : nat)
  (ts_out : string) (reason : option string) (line : string) (extra : dict) :
  NoDup (keys extra) ->
  (forall k, k ∈ keys extra -> k ∉ fixed_keys) ->
  let rec := jsonl_rec fpath lineno ts_out reason line extra in
  out (emit_record "jsonl" s fpath lineno ts_out reason line extra).1
    = out s +:+ json_dumps rec +:+ bs_n /\
  json_loads (json_dumps rec) = Some rec /\
  recovers (json_dumps rec) fpath lineno ts_out reason line extra.
Proof.
  intros Hnd Hfresh rec.
  assert (Hload : json_loads (json_dumps rec) = Some rec).
  { apply json_roundtrip, jsonl_rec_NoDup. }
  split; [reflexivity|]. split; [done|].
  assert (Hfixed : forall k, k ∈ fixed_keys ->
    dict_get k rec = dict_get k [("file", PStr fpath); ("lineno", PInt lineno);
                                 ("timestamp", PStr ts_out);
                                 ("reason", of_opt reason); ("line", PStr line)]).
  { intros k Hk. unfold rec. rewrite jsonl_rec_get by done.
    destruct (dict_get k extra) eqn:Hget; [|done].
    exfalso. apply (Hfresh k); [|done].
    apply dict_get_None_inv. by rewrite Hget. }
  exists rec. split; [done|].
  assert (Hin : forall k, bool_decide (k ∈ fixed_keys) = true -> k ∈ fixed_keys).
  { intros k. apply bool_decide_eq_true. }
  repeat split.
  - rewrite Hfixed; [done|]. by apply Hin.
  - rewrite Hfixed; [done|]. by apply Hin.
  - rewrite Hfixed; [done|]. by apply Hin.
  - rewrite Hfixed; [done|]. by apply Hin.
  - rewrite Hfixed; [done|]. by apply Hin.
  - intros k v Hget. unfold rec. by rewrite jsonl_rec_get, Hget.
Qed.

Lemma jsonl_roundtrip_witness :
  let line := "ERROR user=bob " +:+ String DQ ("x" +:+ String DQ "") in
  let extra := extract_fields [user_pattern] line in
  NoDup (keys extra) /\
  recovers (json_dumps (jsonl_rec "app.log" 3 "" (Some "kw:ERROR") line extra))
           "app.log" 3 "" (Some "kw:ERROR") line extra.
Proof.
  intros line extra. split; [apply extract_fields_NoDup|].
  apply (jsonl_roundtrip sink0 "app.log" 3 "" (Some "kw:ERROR") line extra).
  - apply extract_fields_NoDup.
  - intros k Hk. vm_compute in Hk.
    apply list_elem_of_singleton in Hk as ->.
    unfold fixed_keys. rewrite !elem_of_cons, elem_of_nil.
    intros H. repeat (destruct H as [H|H]; [discriminate|]). done.
Defined.

(** C10. For an accepted line in [jsonl] mode whose extracted fields
    give a value to one of the names [file], [lineno], [timestamp],
    [reason] or [line], the object written for the line holds the
    extracted value under that name, in the place of the fixed key. *)
Theorem jsonl_extracted_field_replaces_fixed (lib : pylib) (cfg : config)
  (s : sink) (fpath : string) (lineno : nat) (line : string)
  (reason : option string) (k : string) (v : pyval) :
  out_format cfg = "jsonl" ->
  within_window (line_timestamp lib cfg line) (since cfg) (until cfg) = Ok true ->
  match_line line (kw_patterns cfg) (rx_patterns cfg) (match_mode cfg)
    = (true, reason) ->
  k ∈ fixed_keys ->
  dict_get k (extract_fields (field_patterns cfg) line) = Some v ->
  let rec := jsonl_rec fpath lineno
               (timestamp_text lib (line_timestamp lib cfg line)) reason line
               (extract_fields (field_patterns cfg) line) in
  process_line lib cfg s fpath lineno line
    = ({| out := out s +:+ json_dumps rec +:+ bs_n;
          csv_writer := csv_writer s; dynamic_fields := dynamic_fields s;
          matched := S (matched s) |}, None) /\
  dict_get k rec = Some v /\
  (exists more, keys rec = fixed_keys ++ more) /\
  (exists d, json_loads (json_dumps rec) = Some d /\ dict_get k d = Some v).
Proof.
  intros Hfmt Hw Hm Hk Hget rec.
  assert (Hrec : dict_get k rec = Some v).
  { unfold rec. rewrite jsonl_rec_get by apply extract_fields_NoDup.
    by rewrite Hget. }
  split.
  { rewrite (process_line_accepted lib cfg s fpath lineno line reason Hw Hm).
    by rewrite Hfmt. }
  split; [done|]. split; [apply jsonl_rec_keys_prefix|].
  exists rec. split; [|done]. apply json_roundtrip, jsonl_rec_NoDup.
Qed.

Lemma jsonl_extracted_field_replaces_fixed_witness :
  let line := "ERROR disk full" in
  let cfg := demo_cfg "jsonl" [level_pattern] in
  let rec := jsonl_rec "app.log" 1 "" (Some "kw:ERROR") line
               (extract_fields [level_pattern] line) in
  dict_get "line" (extract_fields (field_patterns cfg) line) = Some (PStr "disk") /\
  dict_get "line" rec = Some (PStr "disk").
Proof.
  intros line cfg rec. split; [reflexivity|].
  apply (jsonl_extracted_field_replaces_fixed demo_lib cfg sink0 "app.log" 1
           line (Some "kw:ERROR") "line" (PStr "disk")).
  - reflexivity.
  - reflexivity.
  - reflexivity.
  - unfold fixed_keys. do 4 apply list_elem_of_further. apply list_elem_of_here.
  - reflexivity.
Defined.

(** ** Tail Engine *)

Section TailFacts.

Context {St : Type} (callback : St -> event -> St * option exn).

Lemma filter_all {A} (P : A -> Prop) `{forall x, Decision (P x)} l :
  Forall P l -> filter P l = l.
Proof.
  induction 1 as [|x l Hx _ IH]; [done|].
  by rewrite filter_cons_True, IH.
Qed.

Lemma filter_none {A} (P : A -> Prop) `{forall x, Decision (P x)} l :
  Forall (fun x => ~ P x) l -> filter P l = [].
Proof.
  induction 1 as [|x l Hx _ IH]; [done|].
  by rewrite filter_cons_False.
Qed.

Lemma events_of_app f evs1 evs2 :
  events_of f (evs1 ++ evs2) = events_of f evs1 ++ events_of f evs2.
Proof. apply filter_app. Qed.

Lemma events_of_imap_same f n (lines : list string) :
  events_of f (imap (fun i ln => (f, n + S i, ln)) lines)
  = imap (fun i ln => (f, n + S i, ln)) lines.
Proof.
  unfold events_of. apply filter_all.
  apply Forall_forall. intros e He.
  apply elem_of_lookup_imap in He as (i & x & -> & _). done.
Qed.

Lemma events_of_imap_other f g n (lines : list string) :
  g <> f ->
  events_of f (imap (fun i ln => (g, n + S i, ln)) lines) = [].
Proof.
  intros Hne. unfold events_of. apply filter_none.
  apply Forall_forall. intros e He.
  apply elem_of_lookup_imap in He as (i & x & -> & _). done.
Qed.

Lemma linenos_imap f n (lines : list string) :
  linenos (imap (fun i ln => (f, n + S i, ln)) lines)
  = seq (S n) (length lines).
Proof.
  revert n. induction lines as [|ln rest IH]; intros n; [done|].
  simpl. f_equal; [lia|]. rewrite <- (IH (S n)). unfold linenos.
  f_equal. apply imap_ext. intros i x _. simpl. f_equal. f_equal. lia.
Qed.


Lemma imap_shift (f : string) n (rest : list string) :
  imap ((fun i ln => (f, n + S i, ln)) ∘ S) rest
  = imap (fun i ln => (f, S n + S i, ln)) rest.
Proof.
  apply imap_ext. intros i x _. simpl. f_equal. f_equal. lia.
Qed.

(** The calls of one [for ln in lines] loop: the first lines, as many
    as were fed before an exception, numbered after the counter. *)
Lemma feed_shape f n lines s :
  exists called : list string,
    (feed callback f n lines s).1.2
      = imap (fun i ln => (f, n + S i, ln)) called /\
    (feed callback f n lines s).1.1 = n + length called.
Proof.
  revert n s. induction lines as [|ln rest IH]; intros n s; simpl.
  - exists []. simpl. split; [done | lia].
  - destruct (callback s (f, S n, ln)) as [s' [e|]].
    + exists [ln]. simpl. split; [|lia]. do 3 f_equal. lia.
    + destruct (IH (S n) s') as (called & He & Hn).
      destruct (feed callback f (S n) rest s') as [[n' evs] s''].
      simpl in *. exists (ln :: called). simpl. split; [|lia].
      rewrite He, imap_shift. do 3 f_equal. lia.
Qed.

(** With a callback that returns, every line is fed. *)
Lemma feed_returns f n lines s :
  returns callback ->
  (feed callback f n lines s).1
  = (n + length lines, imap (fun i ln => (f, n + S i, ln)) lines).
Proof.
  intros Hret. revert n s. induction lines as [|ln rest IH]; intros n s; simpl.
  - f_equal. lia.
  - pose proof (Hret s (f, S n, ln)) as Hr.
    destruct (callback s (f, S n, ln)) as [s' r]. simpl in Hr.
    subst r. specialize (IH (S n) s').
    destruct (feed callback f (S n) rest s') as [[n' evs] s''].
    simpl in *. injection IH as -> ->. rewrite imap_shift.
    f_equal; [lia|]. do 3 f_equal. lia.
Qed.


Lemma returns_fed_normally f n lines s :
  returns callback -> fed_normally callback f n lines s.
Proof.
  intros Hret. revert n s. induction lines as [|ln rest IH]; intros n s; [done|].
  simpl. pose proof (Hret s (f, S n, ln)) as Hr.
  destruct (callback s (f, S n, ln)) as [s' r]. simpl in Hr. subst r. apply IH.
Qed.

(** What a poll of one file emits, whatever the file system holds and
    whatever the callback does: lines numbered from the counter, which
    a shrunken file has set back to zero. *)
Lemma poll_file_shape fs f st s st' evs :
  (poll_file callback fs f st s).1 = Kept st' evs ->
  exists base (called : list string),
    (base = lineno st \/ base = 0) /\
    evs = imap (fun i ln => (f, base + S i, ln)) called /\
    lineno st' = base + length called.
Proof.
  unfold poll_file. destruct (dir fs f) as [ino|]; [|done].
  set (size := String.length (data fs ino)).
  assert (Hread : forall c : cursor,
    (let '(new_pos, lines) := _read_new_lines (data fs (fh c)) (pos c) in
     match lines with
     | [] => (Kept {| fh := fh c; pos := pos c; lineno := lineno c;
                      stat := (ino, size) |} [], s)
     | _ :: _ => let '(n, evs, s') := feed callback f (lineno c) lines s in
                 (Kept {| fh := fh c; pos := new_pos; lineno := n;
                          stat := (ino, new_pos) |} evs, s')
     end).1 = Kept st' evs ->
    exists called : list string,
      evs = imap (fun i ln => (f, lineno c + S i, ln)) called /\
      lineno st' = lineno c + length called).
  { intros c. unfold _read_new_lines.
    destruct (map (rstrip bs_n) (readlines (str_drop (pos c) (data fs (fh c)))))
      as [|l ls] eqn:Hl.
    - simpl. intros [= <- <-]. exists []. simpl. split; [done | lia].
    - destruct (feed_shape f (lineno c) (l :: ls) s) as (called & He & Hn).
      destruct (feed callback f (lineno c) (l :: ls) s) as [[n evs0] s0].
      simpl in He, Hn. simpl. intros [= <- <-]. exists called. done. }
  destruct (size <? snd (stat st)).
  - destruct (_open fs f) as [c|] eqn:Hopen; [|done].
    intros H. apply Hread in H as (called & -> & ->).
    assert (lineno c = 0) as ->.
    { unfold _open in Hopen. destruct (endswith f ".gz"); [done|].
      destruct (dir fs f); [|done]. by injection Hopen as <-. }
    exists 0, called. auto.
  - intros H. apply Hread in H as (called & -> & ->).
    exists (lineno st), called. auto.
Qed.

Lemma sweep_unwatched fs state f s :
  f ∉ state.*1 ->
  events_of f (sweep callback fs state s).1.2 = [] /\
  cursor_of f (sweep callback fs state s).1.1 = None.
Proof.
  revert s. induction state as [|[g st] rest IH]; intros s; [done|].
  rewrite fmap_cons, not_elem_of_cons. simpl. intros [Hne Hrest].
  destruct (poll_file callback fs g st s) as [r s1] eqn:Hpoll.
  destruct (IH s1 Hrest) as [IHe IHc].
  destruct (sweep callback fs rest s1) as [[rest' evs'] s2]. simpl in *.
  destruct r as [st' evs|]; simpl; [|done].
  rewrite bool_decide_eq_false_2 by done. split; [|done].
  pose proof (poll_file_shape fs g st s st' evs) as Hshape.
  rewrite Hpoll in Hshape. destruct (Hshape eq_refl) as (base & called & _ & -> & _).
  rewrite events_of_app, IHe, events_of_imap_other by done. done.
Qed.

(** In a sweep a watched file is polled once, with its own cursor. *)
Lemma sweep_file fs state f st s :
  NoDup state.*1 -> cursor_of f state = Some st ->
  exists s0,
    events_of f (sweep callback fs state s).1.2
      = match (poll_file callback fs f st s0).1 with
        | Kept _ evs => evs
        | Dropped => []
        end /\
    cursor_of f (sweep callback fs state s).1.1
      = match (poll_file callback fs f st s0).1 with
        | Kept st' _ => Some st'
        | Dropped => None
        end.
Proof.
  revert s. induction state as [|[g c] rest IH]; intros s; [done|].
  rewrite fmap_cons, NoDup_cons. simpl. intros [Hfresh Hnd].
  destruct (bool_decide (g = f)) eqn:Hg.
  - apply bool_decide_eq_true in Hg as ->. intros [= ->]. exists s.
    destruct (poll_file callback fs f st s) as [r s1] eqn:Hpoll.
    destruct (sweep_unwatched fs rest f s1 Hfresh) as [He Hc].
    destruct (sweep callback fs rest s1) as [[rest' evs'] s2]. simpl in *.
    destruct r as [st' evs|]; simpl; [|done].
    rewrite bool_decide_eq_true_2 by done. split; [|done].
    pose proof (poll_file_shape fs f st s st' evs) as Hshape.
    rewrite Hpoll in Hshape.
    destruct (Hshape eq_refl) as (base & called & _ & -> & _).
    rewrite events_of_app, He, app_nil_r. apply events_of_imap_same.
  - apply bool_decide_eq_false in Hg. intros Hcur.
    destruct (poll_file callback fs g c s) as [r s1] eqn:Hpoll.
    destruct (IH s1 Hnd Hcur) as (s0 & IHe & IHc). exists s0.
    destruct (sweep callback fs rest s1) as [[rest' evs'] s2]. simpl in *.
    destruct r as [c' evs|]; simpl; [|done].
    rewrite bool_decide_eq_false_2 by done. split; [|done].
    pose proof (poll_file_shape fs g c s c' evs) as Hshape.
    rewrite Hpoll in Hshape.
    destruct (Hshape eq_refl) as (base & called & _ & -> & _).
    rewrite events_of_app, events_of_imap_other by done. done.
Qed.


Lemma cursor_of_None f state :
  cursor_of f state = None <-> f ∉ state.*1.
Proof.
  induction state as [|[g c] rest IH]; simpl.
  - split; [intros _; apply not_elem_of_nil | done].
  - rewrite not_elem_of_cons. destruct (bool_decide (g = f)) eqn:Hg.
    + apply bool_decide_eq_true in Hg. split; [done | intros [? _]; done].
    + apply bool_decide_eq_false in Hg. rewrite IH.
      split; [done | by intros [_ ?]].
Qed.

Lemma sweep_keys fs state s :
  (sweep callback fs state s).1.1.*1 `sublist_of` state.*1.
Proof.
  revert s. induction state as [|[g c] rest IH]; intros s; [done|]. simpl.
  destruct (poll_file callback fs g c s) as [r s1].
  specialize (IH s1).
  destruct (sweep callback fs rest s1) as [[rest' evs'] s2]. simpl in IH.
  destruct r; simpl.
  - by apply sublist_skip.
  - by apply sublist_cons.
Qed.


Lemma sweeps_unwatched snaps state f s :
  f ∉ state.*1 -> events_of f (sweeps callback snaps state s).1.2 = [].
Proof.
  revert state s. induction snaps as [|fs later IH]; intros state s Hf; [done|].
  simpl. destruct (sweep_unwatched fs state f s Hf) as [He Hc].
  destruct (sweep callback fs state s) as [[state' evs] s1]. simpl in He, Hc.
  apply cursor_of_None in Hc. specialize (IH state' s1 Hc).
  destruct (sweeps callback later state' s1) as [[state'' evs'] s2]. simpl in *.
  by rewrite events_of_app, He, IH.
Qed.







End TailFacts.




(** * Further properties *)

(** ** Line Source *)

Section MoreLineFacts.

Lemma readlines_nil s : readlines s = [] -> s = "".
Proof.
  destruct s as [|c r]; [done|]. simpl.
  destruct (ascii_eqb c LF); [done|].
  destruct (ascii_eqb c CR).
  - destruct r as [|d r']; [done|]. by destruct (ascii_eqb d LF).
  - by destruct (readlines r).
Qed.

Lemma readlines_cons c r :
  readlines (String c r) =
  if ascii_eqb c LF then nl :: readlines r
  else if ascii_eqb c CR then
    match r with
    | String d r' =>
        if ascii_eqb d LF then crnl :: readlines r'
        else String CR "" :: readlines r
    | EmptyString => [String CR ""]
    end
  else
    match readlines r with
    | [] => [String c ""]
    | l :: ls => String c l :: ls
    end.
Proof. reflexivity. Qed.

Lemma str_join_cons l ls : str_join (l :: ls) = l +:+ str_join ls.
Proof. reflexivity. Qed.

(** The two facts about [readlines] at once, by induction on the size of
    the text: the lines put together give the text, and no line is
    empty. *)
Lemma readlines_sound n s :
  String.length s <= n ->
  str_join (readlines s) = s /\ Forall (fun l => l <> "") (readlines s).
Proof.
  revert s. induction n as [|n IH]; intros s Hlen.
  { destruct s; [by split | simpl in Hlen; lia]. }
  destruct s as [|c r]; [by split|]. simpl in Hlen.
  assert (Hr : str_join (readlines r) = r /\
               Forall (fun l => l <> "") (readlines r)) by (apply IH; lia).
  destruct Hr as [Hjoin Hne]. rewrite readlines_cons.
  destruct (ascii_eqb c LF) eqn:Hlf.
  - apply ascii_eqb_true in Hlf as ->. rewrite str_join_cons, Hjoin.
    split; [done|]. by constructor.
  - destruct (ascii_eqb c CR) eqn:Hcr.
    + apply ascii_eqb_true in Hcr as ->.
      remember (readlines r) as lines eqn:Hlines.
      destruct r as [|d r']; [by split; [|repeat constructor]|].
      destruct (ascii_eqb d LF) eqn:Hd.
      * apply ascii_eqb_true in Hd as ->. simpl in Hlen.
        destruct (IH r') as [Hjoin' Hne']; [lia|].
        rewrite str_join_cons, Hjoin'. split; [done|]. by constructor.
      * rewrite str_join_cons, Hjoin. split; [done|]. by constructor.
    + destruct (readlines r) as [|l ls] eqn:Hlines.
      * apply readlines_nil in Hlines as ->. split; [done|]. by repeat constructor.
      * rewrite str_join_cons in *. rewrite str_app_cons, Hjoin. split; [done|].
        apply Forall_cons in Hne as [_ Hls]. by constructor.
Qed.

Lemma rstrip_ends_in_break l : ends_in_break l = true -> rstrip bs_n l = l.
Proof.
  induction l as [|c r IH]; [done|]. simpl.
  destruct r as [|d r'].
  - unfold is_break. intros [Hc|Hc]%orb_true_iff; apply ascii_eqb_true in Hc as ->; done.
  - intros H. by rewrite (IH H).
Qed.

Lemma ends_in_break_cons c l :
  l <> "" -> ends_in_break (String c l) = ends_in_break l.
Proof. by destruct l. Qed.

Lemma ends_in_break_nonempty l : ends_in_break l = true -> l <> "".
Proof. by destruct l. Qed.

(** In a text that ends with a line break every line has its
    terminator. *)
Lemma readlines_terminated n s :
  String.length s <= n -> ends_in_break s = true ->
  Forall (fun l => ends_in_break l = true) (readlines s).
Proof.
  revert s. induction n as [|n IH]; intros s Hlen Hend.
  { destruct s; [done | simpl in Hlen; lia]. }
  destruct s as [|c r]; [done|]. simpl in Hlen.
  assert (Hrest : forall t, String.length t <= n -> t = "" \/ ends_in_break t = true ->
            Forall (fun l => ends_in_break l = true) (readlines t)).
  { intros t Ht [-> | Hte]; [constructor | by apply IH]. }
  assert (Htail : r = "" \/ ends_in_break r = true).
  { destruct r; [by left | by right]. }
  rewrite readlines_cons. destruct (ascii_eqb c LF) eqn:Hlf.
  - constructor; [done|]. apply Hrest; [lia | done].
  - destruct (ascii_eqb c CR) eqn:Hcr.
    + destruct r as [|d r']; [by repeat constructor|].
      destruct (ascii_eqb d LF) eqn:Hd.
      * constructor; [done|]. simpl in Hlen. apply Hrest; [lia|].
        destruct r'; [by left | by right].
      * constructor; [done|]. apply Hrest; [lia | done].
    + destruct Htail as [-> | Hr].
      { simpl in Hend. unfold is_break in Hend. by rewrite Hlf, Hcr in Hend. }
      pose proof (IH r ltac:(lia) Hr) as Hall.
      destruct (readlines r) as [|l ls] eqn:Hlines.
      { apply readlines_nil in Hlines as ->. done. }
      apply Forall_cons in Hall as [Hl Hls]. constructor; [|done].
      rewrite ends_in_break_cons; [done|]. by apply ends_in_break_nonempty.
Qed.

Lemma yield_lines_imap f idx lines :
  yield_lines f idx lines
  = imap (fun i l => (f, idx + i, rstrip bs_n l)) lines.
Proof.
  revert idx. induction lines as [|l ls IH]; intros idx; [done|].
  simpl. rewrite IH. f_equal; [by rewrite Nat.add_0_r|].
  apply imap_ext. intros i x _. simpl. do 2 f_equal. lia.
Qed.

Lemma events_of_yield_same f idx lines :
  events_of f (yield_lines f idx lines) = yield_lines f idx lines.
Proof.
  revert idx. induction lines as [|l ls IH]; intros idx; [done|].
  simpl. unfold events_of in *. rewrite filter_cons_True by done.
  by rewrite IH.
Qed.

Lemma events_of_yield_other f g idx lines :
  g <> f -> events_of f (yield_lines g idx lines) = [].
Proof.
  intros Hne. revert idx. induction lines as [|l ls IH]; intros idx; [done|].
  simpl. unfold events_of in *. rewrite filter_cons_False by done. apply IH.
Qed.

Lemma events_of_iter_lines_other fs files f :
  f ∉ files -> events_of f (iter_lines fs files) = [].
Proof.
  induction files as [|g files IH]; [done|].
  rewrite not_elem_of_cons. intros [Hne Hf]. simpl.
  destruct (open_maybe_gzip fs g); [|by apply IH].
  rewrite events_of_app, events_of_yield_other by done. by apply IH.
Qed.

End MoreLineFacts.

(** Cutting a text into lines loses nothing: the lines of [readlines],
    put together in order, are the text, and none of them is empty. *)
Lemma readlines_keeps_text (s : string) :
  str_join (readlines s) = s /\ Forall (fun l => l <> "") (readlines s).
Proof. by apply (readlines_sound (String.length s)). Qed.

(** X1. For a list of distinct files, the Line Source yields for each
    readable file its lines in order, numbered from 1, each with the
    file's own path; a file that cannot be opened yields nothing and
    does not disturb the others. *)
Theorem iter_lines_numbering (fs : filesys) (files : list string) (f : string) :
  NoDup files -> f ∈ files ->
  events_of f (iter_lines fs files)
  = match open_maybe_gzip fs f with
    | Some text => imap (fun i l => (f, 1 + i, rstrip bs_n l)) (readlines text)
    | None => []
    end.
Proof.
  induction files as [|g files IH]; [by intros _ ?%elem_of_nil|].
  rewrite NoDup_cons, elem_of_cons. intros [Hfresh Hnd] Hin. simpl.
  destruct (decide (f = g)) as [->|Hne].
  - destruct (open_maybe_gzip fs g) as [text|].
    + rewrite events_of_app, events_of_yield_same.
      rewrite events_of_iter_lines_other, app_nil_r by done.
      apply yield_lines_imap.
    + by apply events_of_iter_lines_other.
  - destruct Hin as [?|Hin]; [done|].
    destruct (open_maybe_gzip fs g) as [text|]; [|by apply IH].
    rewrite events_of_app, events_of_yield_other by done. by apply IH.
Qed.

Lemma iter_lines_numbering_witness :
  let fs := one_file "b.log" 2 ("x" +:+ nl +:+ "y" +:+ nl) in
  events_of "b.log" (iter_lines fs ["a.log"; "b.log"])
  = [("b.log", 1, "x" +:+ nl); ("b.log", 2, "y" +:+ nl)] /\
  events_of "a.log" (iter_lines fs ["a.log"; "b.log"]) = [].
Proof.
  intros fs.
  assert (Hnd : NoDup ["a.log"; "b.log"]).
  { apply (bool_decide_unpack _). by vm_compute. }
  split.
  - rewrite (iter_lines_numbering fs ["a.log"; "b.log"] "b.log" Hnd).
    + reflexivity.
    + apply list_elem_of_further, list_elem_of_here.
  - rewrite (iter_lines_numbering fs ["a.log"; "b.log"] "a.log" Hnd).
    + reflexivity.
    + apply list_elem_of_here.
Defined.

(** X2. When the text of a file is empty or ends with a line break, the
    Line Source hands on every line exactly as it stands in the file,
    terminator included, and the texts it yields put together are the
    file's text. *)
Theorem iter_lines_text_kept (fs : filesys) (f text : string) :
  open_maybe_gzip fs f = Some text ->
  text = "" \/ ends_in_break text = true ->
  texts (iter_lines fs [f]) = readlines text /\
  str_join (texts (iter_lines fs [f])) = text.
Proof.
  intros Hopen Hend. simpl. rewrite Hopen, app_nil_r.
  assert (Hall : Forall (fun l => ends_in_break l = true) (readlines text)).
  { destruct Hend as [-> | Hend]; [constructor|].
    by apply (readlines_terminated (String.length text)). }
  assert (Htexts : texts (yield_lines f 1 (readlines text)) = readlines text).
  { generalize 1. induction Hall as [|l ls Hl _ IH]; intros idx; [done|].
    simpl. unfold texts in *. simpl. by rewrite IH, rstrip_ends_in_break. }
  rewrite Htexts. split; [done|].
  by apply (readlines_sound (String.length text)).
Qed.

Lemma iter_lines_text_kept_witness :
  let text := "one" +:+ crnl +:+ "two" +:+ nl in
  texts (iter_lines (one_file "a.log" 1 text) ["a.log"])
    = ["one" +:+ crnl; "two" +:+ nl].
Proof.
  intros text.
  rewrite (proj1 (iter_lines_text_kept (one_file "a.log" 1 text) "a.log" text
                    eq_refl (or_intror eq_refl))).
  reflexivity.
Defined.
(** ** Matcher and pipeline *)

Section MorePipelineFacts.

Lemma first_reason_kw_only line kw first :
  first_reason line kw [] = Some first -> existsb (hits line) kw = true.
Proof.
  intros H. destruct (existsb (hits line) kw) eqn:Hk; [done|].
  assert (first_reason line kw [] = None) by (by apply first_reason_None).
  congruence.
Qed.

Lemma first_reason_rx_only line rx first :
  first_reason line [] rx = Some first -> existsb (hits line) rx = true.
Proof.
  intros H. destruct (existsb (hits line) rx) eqn:Hr; [done|].
  assert (first_reason line [] rx = None) by (by apply first_reason_None).
  congruence.
Qed.

Lemma emit_record_matched fmt s fpath lineno ts_out reason line extra :
  matched (emit_record fmt s fpath lineno ts_out reason line extra).1
  = S (matched s).
Proof.
  unfold emit_record.
  destruct (bool_decide (fmt = "console")); [done|].
  destruct (bool_decide (fmt = "csv")).
  - destruct (csv_writer s);
      destruct (_dict_to_list _ _); done.
  - by destruct (bool_decide (fmt = "jsonl")).
Qed.

Lemma emit_record_no_csv fmt s fpath lineno ts_out reason line extra :
  fmt <> "csv" ->
  (emit_record fmt s fpath lineno ts_out reason line extra).2 = None.
Proof.
  intros Hfmt. unfold emit_record.
  destruct (bool_decide (fmt = "console")); [done|].
  rewrite bool_decide_eq_false_2 by done.
  by destruct (bool_decide (fmt = "jsonl")).
Qed.

Lemma within_window_comparable ts since until :
  comparable ts since -> comparable ts until ->
  exists passes, within_window ts since until = Ok passes.
Proof.
  intros Hs Hu. unfold within_window, dt_gt.
  destruct since as [s|], until as [u|], ts as [t|]; simpl in *;
    rewrite ?(dt_lt_comparable t s), ?(dt_lt_comparable u t) by done;
    simpl; eauto;
    repeat match goal with
           | |- context [(?a <? ?b)%Z] => destruct (a <? b)%Z; simpl
           end; eauto.
Qed.

(** [parse_dt] on a text: the first format whose attempt returns gives
    the value, the formats before it having failed with [ValueError]. *)
Lemma first_parse_ok lib text fmts d :
  first_parse lib text fmts = Ok d <->
  exists pre fmt post,
    fmts = pre ++ fmt :: post /\
    Forall (fun g => parse_attempt lib text g = Raise ValueError) pre /\
    parse_attempt lib text fmt = Ok d.
Proof.
  split.
  - induction fmts as [|g rest IH]; simpl; [done|].
    destruct (parse_attempt lib text g) as [d'|e] eqn:Hg.
    + intros [= ->]. exists [], g, rest. by repeat split.
    + destruct e; try done.
      intros Hrest. destruct (IH Hrest) as (pre & fmt & post & -> & Hpre & Hfmt).
      exists (g :: pre), fmt, post. split; [done|]. split; [|done].
      by apply Forall_cons.
  - intros (pre & fmt & post & -> & Hpre & Hfmt).
    induction Hpre as [|g pre Hg _ IH]; simpl.
    + by rewrite Hfmt.
    + by rewrite Hg.
Qed.

Lemma first_parse_all_fail lib text fmts :
  Forall (fun g => parse_attempt lib text g = Raise ValueError) fmts ->
  first_parse lib text fmts = Raise ValueError.
Proof.
  induction 1 as [|g rest Hg _ IH]; [done|]. simpl. by rewrite Hg.
Qed.

End MorePipelineFacts.

(** X3. In [all] mode a category without patterns asks for nothing:
    with no regex pattern (or no keyword pattern) [all] gives the result
    of [any].  A mode string other than [all] is treated as [any]. *)
Theorem match_line_all_degenerates (line : string) (kw rx : list Pattern)
  (mode : string) :
  match_line line kw [] "all" = match_line line kw [] "any" /\
  match_line line [] rx "all" = match_line line [] rx "any" /\
  (mode <> "all" -> match_line line kw rx mode = match_line line kw rx "any").
Proof.
  repeat split.
  - rewrite !match_line_unfold.
    destruct (first_reason line kw []) as [first|] eqn:Hfirst; [|done].
    apply first_reason_kw_only in Hfirst.
    rewrite bool_decide_eq_true_2, bool_decide_eq_false_2 by done.
    simpl. rewrite Hfirst. by destruct kw.
  - rewrite !match_line_unfold.
    destruct (first_reason line [] rx) as [first|] eqn:Hfirst; [|done].
    apply first_reason_rx_only in Hfirst.
    rewrite bool_decide_eq_true_2, bool_decide_eq_false_2 by done.
    simpl. rewrite Hfirst. by destruct rx.
  - intros Hmode. rewrite !match_line_unfold.
    by rewrite !bool_decide_eq_false_2.
Qed.

Lemma match_line_all_degenerates_witness :
  match_line "ERROR in db" [literal "ERROR"] [literal "disk"] "ALL"
  = (true, Some "kw:ERROR").
Proof.
  rewrite (proj2 (proj2 (match_line_all_degenerates "ERROR in db"
                           [literal "ERROR"] [literal "disk"] "ALL")));
    [reflexivity | done].
Defined.

(** X4. With extraction switched off, without a pattern or a format, or
    when the pattern does not match the line, the line has no timestamp;
    and a line without a timestamp is dropped whenever a bound is set:
    the sink is left as it was and nothing is raised, whatever the
    Matcher would say. *)
Theorem process_line_without_timestamp (lib : pylib) (cfg : config) (s : sink)
  (fpath : string) (lineno : nat) (line : string) :
  (ts_enabled cfg = false \/ ts_regex cfg = None \/ ts_fmt cfg = None \/
   ts_fmt cfg = Some "" \/
   (exists rx, ts_regex cfg = Some rx /\ search rx line = None) ->
   line_timestamp lib cfg line = None) /\
  (line_timestamp lib cfg line = None ->
   is_Some (since cfg) \/ is_Some (until cfg) ->
   process_line lib cfg s fpath lineno line = (s, None)).
Proof.
  split.
  - unfold line_timestamp, extract_timestamp.
    intros [-> | [-> | [-> | [-> | (rx & -> & Hrx)]]]]; try done.
    + by destruct (ts_enabled cfg).
    + by destruct (ts_enabled cfg), (ts_regex cfg).
    + by destruct (ts_enabled cfg), (ts_regex cfg).
    + destruct (ts_enabled cfg); [|done].
      destruct (ts_fmt cfg) as [fmt|]; [|done].
      destruct (bool_decide (fmt = "")); [done|]. by rewrite Hrx.
  - intros Hts Hset. unfold process_line. rewrite Hts.
    destruct (since cfg), (until cfg); try done.
    destruct Hset as [[? ?] | [? ?]]; done.
Qed.

Lemma process_line_without_timestamp_witness :
  let cfg :=
    {| kw_patterns := [literal "ERROR"]; rx_patterns := []; match_mode := "any";
       ts_enabled := false; ts_regex := None; ts_fmt := None; assume_tz := "UTC";
       since := Some (Aware 0); until := None;
       field_patterns := []; out_format := "jsonl" |} in
  process_line demo_lib cfg sink0 "app.log" 1 "ERROR disk" = (sink0, None).
Proof.
  intros cfg.
  apply (proj2 (process_line_without_timestamp demo_lib cfg sink0 "app.log" 1
                  "ERROR disk")).
  - reflexivity.
  - left. eexists. reflexivity.
Defined.

(** X5. A naive timestamp meeting an aware bound ends the processing of
    the line with [TypeError]; the sink is left as it was.  The time-zone
    assumption that is neither [utc] nor [local] hands the parsed value
    on as it is, which is how a naive timestamp arises. *)
Theorem process_line_naive_timestamp (lib : pylib) (cfg : config) (s : sink)
  (fpath : string) (lineno : nat) (line : string) (w b : Z) :
  line_timestamp lib cfg line = Some (Naive w) ->
  since cfg = Some (Aware b) \/ (since cfg = None /\ until cfg = Some (Aware b)) ->
  process_line lib cfg s fpath lineno line = (s, Some TypeError).
Proof.
  intros Hts Hb. unfold process_line. rewrite Hts.
  destruct Hb as [-> | [-> ->]]; by destruct (until cfg).
Qed.

Lemma process_line_naive_timestamp_witness :
  line_timestamp naive_lib naive_cfg "2025 ERROR disk" = Some (Naive 0) /\
  process_line naive_lib naive_cfg sink0 "app.log" 1 "2025 ERROR disk"
    = (sink0, Some TypeError).
Proof.
  split; [reflexivity|].
  apply (process_line_naive_timestamp naive_lib naive_cfg sink0 "app.log" 1
           "2025 ERROR disk" 0 0).
  - reflexivity.
  - left. reflexivity.
Defined.

(** X6. Outside the CSV format the pipeline raises nothing for a line
    whose timestamp can be ordered against the bounds: the only
    exceptions of [process_line] are the [TypeError] of the window check
    and the [ValueError] of the CSV writer. *)
Theorem process_line_raises_nothing (lib : pylib) (cfg : config) (s : sink)
  (fpath : string) (lineno : nat) (line : string) :
  out_format cfg <> "csv" ->
  comparable (line_timestamp lib cfg line) (since cfg) ->
  comparable (line_timestamp lib cfg line) (until cfg) ->
  (process_line lib cfg s fpath lineno line).2 = None.
Proof.
  intros Hfmt Hs Hu. unfold process_line.
  destruct (within_window_comparable _ _ _ Hs Hu) as [passes ->].
  destruct passes; [|done].
  destruct (match_line line _ _ _) as [[] reason]; [|done].
  by apply emit_record_no_csv.
Qed.

Lemma process_line_raises_nothing_witness :
  (process_line demo_lib (demo_cfg "jsonl" [user_pattern]) sink0 "app.log" 1
                "ERROR user=bob").2 = None.
Proof.
  apply (process_line_raises_nothing demo_lib (demo_cfg "jsonl" [user_pattern])
           sink0 "app.log" 1 "ERROR user=bob"); done.
Defined.

(** X7. [parse_dt] gives no bound for an absent or empty text.  For
    any other text it returns the value of the first of its three
    formats for which parsing and the conversion to local time both
    return, the formats before it having failed with [ValueError], and
    it raises [ValueError] when every format fails so.  What it returns
    is aware, so with the [utc] or [local] assumption the window check
    of a line raises nothing. *)
Theorem parse_dt_bounds (lib : pylib) :
  parse_dt lib None = Ok None /\ parse_dt lib (Some "") = Ok None /\
  (forall text, text <> "" ->
     (forall fmt, fmt ∈ dt_formats ->
        parse_attempt lib text fmt = Raise ValueError) ->
     parse_dt lib (Some text) = Raise ValueError) /\
  (forall text r, text <> "" ->
     (parse_dt lib (Some text) = Ok r <->
      exists pre fmt post d,
        r = Some d /\ dt_formats = pre ++ fmt :: post /\
        Forall (fun g => parse_attempt lib text g = Raise ValueError) pre /\
        parse_attempt lib text fmt = Ok d)) /\
  (forall (cfg : config) (a b : option string) (lo hi : option datetime)
          (line : string),
     gives_aware lib ->
     parse_dt lib a = Ok lo -> parse_dt lib b = Ok hi ->
     since cfg = lo -> until cfg = hi ->
     lower lib (assume_tz cfg) = "utc" \/ lower lib (assume_tz cfg) = "local" ->
     exists passes,
       within_window (line_timestamp lib cfg line) (since cfg) (until cfg)
       = Ok passes).
Proof.
  split; [done|]. split; [done|]. split.
  { intros text Hne Hfail. unfold parse_dt.
    rewrite bool_decide_eq_false_2 by done.
    rewrite first_parse_all_fail; [done|].
    by apply Forall_forall. }
  split.
  { intros text r Hne. unfold parse_dt.
    rewrite bool_decide_eq_false_2 by done.
    destruct (first_parse lib text dt_formats) as [d|e] eqn:Hfirst.
    - split.
      + intros [= <-]. apply first_parse_ok in Hfirst
          as (pre & fmt & post & Hsplit & Hpre & Hfmt).
        by exists pre, fmt, post, d.
      + intros (pre & fmt & post & d' & -> & Hsplit & Hpre & Hfmt).
        assert (first_parse lib text dt_formats = Ok d') as Hd'.
        { apply first_parse_ok. by exists pre, fmt, post. }
        congruence.
    - split; [done|].
      intros (pre & fmt & post & d' & -> & Hsplit & Hpre & Hfmt).
      assert (first_parse lib text dt_formats = Ok d') as Hd'.
      { apply first_parse_ok. by exists pre, fmt, post. }
      congruence. }
  intros cfg a b lo hi line [Hast Hutc] Ha Hb Hlo Hhi Htz.
  assert (Haware : forall x r, parse_dt lib x = Ok (Some r) -> is_aware r = true).
  { intros x r. unfold parse_dt. destruct x as [text|]; [|done].
    destruct (bool_decide (text = "")); [done|].
    destruct (first_parse lib text dt_formats) as [d|e] eqn:Hfirst; [|done].
    intros [= <-]. apply first_parse_ok in Hfirst
      as (pre & fmt & post & _ & _ & Hfmt).
    unfold parse_attempt in Hfmt.
    destruct (strptime lib text fmt) as [dt|]; [|done]. by eapply Hast. }
  assert (Hts : forall t, line_timestamp lib cfg line = Some t -> is_aware t = true).
  { intros t. unfold line_timestamp, extract_timestamp.
    destruct (ts_enabled cfg); [|done].
    destruct (ts_regex cfg) as [rx|]; [|done].
    destruct (ts_fmt cfg) as [fmt|]; [|done].
    destruct (bool_decide (fmt = "")); [done|].
    destruct (search rx line) as [m|]; [|done].
    destruct (match list_find _ (groupdict m) with
              | Some (_, (_, v)) => v
              | None => Some (group0 m)
              end) as [text|]; [|done].
    destruct (strptime lib text fmt) as [dt|]; [|done].
    destruct Htz as [-> | ->].
    - rewrite bool_decide_eq_true_2 by done. intros [= <-]. apply Hutc.
    - rewrite bool_decide_eq_false_2 by done.
      rewrite bool_decide_eq_true_2 by done.
      destruct (astimezone lib dt) as [local|] eqn:Hlocal; [|done].
      intros [= <-]. by eapply Hast. }
  apply within_window_comparable.
  - rewrite Hlo. destruct (line_timestamp lib cfg line) as [t|] eqn:Et; [|done].
    destruct lo as [r|]; [|done]. simpl.
    by rewrite (Hts t eq_refl), (Haware a r Ha).
  - rewrite Hhi. destruct (line_timestamp lib cfg line) as [t|] eqn:Et; [|done].
    destruct hi as [r|]; [|done]. simpl.
    by rewrite (Hts t eq_refl), (Haware b r Hb).
Qed.

(** A bound whose first two formats fail in the conversion to local
    time and whose third format gives the value. *)
Lemma parse_dt_bounds_witness :
  let cfg :=
    {| kw_patterns := [literal "ERROR"]; rx_patterns := []; match_mode := "any";
       ts_enabled := true; ts_regex := Some (literal "2025");
       ts_fmt := Some "%Y"; assume_tz := "utc";
       since := Some (Aware 0); until := None;
       field_patterns := []; out_format := "jsonl" |} in
  gives_aware naive_lib /\
  parse_dt naive_lib (Some "2025-01-01") = Ok (Some (Aware 0)) /\
  exists passes,
    within_window (line_timestamp naive_lib cfg "2025 ERROR") (since cfg) (until cfg)
    = Ok passes.
Proof.
  intros cfg.
  assert (Hlib : gives_aware naive_lib).
  { split; [|done]. intros d local. simpl.
    destruct (reading d <? 0)%Z; [done|]. by intros [= <-]. }
  destruct (parse_dt_bounds naive_lib) as (_ & _ & _ & Hfirst & Hwin).
  split; [done|]. split.
  - apply Hfirst; [done|].
    exists ["%Y-%m-%d"; "%Y-%m-%d %H:%M"], "%Y-%m-%d %H:%M:%S", [], (Aware 0).
    split; [done|]. split; [done|]. split; [|done].
    repeat constructor.
  - apply (Hwin cfg (Some "2025-01-01") None (Some (Aware 0)) None "2025 ERROR" Hlib);
      [reflexivity | reflexivity | reflexivity | reflexivity | by left].
Defined.

(** X8. The counters of the initial pass: when the pass ends without an
    exception, every line of the Line Source was counted, and [matched]
    grew by the number of lines that passed the window and the Matcher,
    so it never grows by more than the number of lines. *)
Theorem initial_pass_counts (lib : pylib) (cfg : config)
  (items : list (string * nat * string)) (s : sink) (total : nat) :
  (initial_pass lib cfg items s total).2 = None ->
  (initial_pass lib cfg items s total).1.2 = total + length items /\
  matched (initial_pass lib cfg items s total).1.1
    = matched s + length (List.filter (accepted lib cfg) items) /\
  matched (initial_pass lib cfg items s total).1.1 - matched s <= length items.
Proof.
  revert s total. induction items as [|[[f n] line] items IH]; intros s total.
  - simpl. intros _. repeat split; lia.
  - cbn [initial_pass].
    assert (Hstep : forall s' e, process_line lib cfg s f n line = (s', e) ->
              e = None ->
              matched s' = matched s + (if accepted lib cfg (f, n, line) then 1 else 0)).
    { intros s' e. unfold process_line, accepted. cbn [snd].
      destruct (within_window _ _ _) as [[]|]; [| intros [= <- <-]; lia | by intros [= <- <-]].
      destruct (match_line line _ _ _) as [[] reason]; cbn [fst].
      - intros Hemit _.
        pose proof (emit_record_matched (out_format cfg) s f n
                      (timestamp_text lib (line_timestamp lib cfg line))
                      reason line (extract_fields (field_patterns cfg) line)) as Hm.
        rewrite Hemit in Hm. simpl in Hm. lia.
      - intros [= <- <-]. lia. }
    destruct (process_line lib cfg s f n line) as [s' [e|]] eqn:Hp; [done|].
    intros Hnone. specialize (IH s' (S total) Hnone) as (Ht & Hm & _).
    pose proof (Hstep s' None eq_refl eq_refl) as Hs'.
    assert (Hlen : length (List.filter (accepted lib cfg) items) <= length items).
    { apply List.filter_length_le. }
    cbn [List.filter length].
    destruct (accepted lib cfg (f, n, line)); cbn [length]; repeat split; lia.
Qed.

Lemma initial_pass_counts_witness :
  let items := iter_lines (one_file "app.log" 1
                 ("ERROR a" +:+ nl +:+ "fine" +:+ nl +:+ "ERROR b" +:+ nl))
                 ["app.log"] in
  let run := initial_pass demo_lib (demo_cfg "jsonl" []) items sink0 0 in
  run.1.2 = 3 /\ matched run.1.1 = 2.
Proof.
  intros items run.
  destruct (initial_pass_counts demo_lib (demo_cfg "jsonl" []) items sink0 0)
    as (Ht & Hm & _); [reflexivity|].
  split; [exact Ht | exact Hm].
Defined.

(** X9. An exception ends the initial pass at the line that raised
    it: the lines before it are processed, that line is counted, and
    the lines after it are neither counted nor processed. *)
Theorem initial_pass_stops_at_exception (lib : pylib) (cfg : config)
  (before after : list (string * nat * string)) (f : string) (n : nat)
  (line : string) (s s1 s2 : sink) (total total1 : nat) (e : exn) :
  initial_pass lib cfg before s total = (s1, total1, None) ->
  process_line lib cfg s1 f n line = (s2, Some e) ->
  initial_pass lib cfg (before ++ (f, n, line) :: after) s total
  = (s2, S total1, Some e) /\
  total1 = total + length before.
Proof.
  revert s total. induction before as [|[[g k] l] before IH]; intros s total.
  - cbn [initial_pass app]. intros [= <- <-] Hp. rewrite Hp.
    split; [done | simpl; lia].
  - cbn [initial_pass app].
    destruct (process_line lib cfg s g k l) as [s' [e'|]]; [done|].
    intros Hrun Hp. destruct (IH s' (S total) Hrun Hp) as [-> ->].
    split; [done | simpl; lia].
Qed.

Lemma initial_pass_stops_at_exception_witness :
  let items := [("app.log", 1, "ERROR disk"); ("app.log", 2, "ERROR user=bob");
                ("app.log", 3, "ERROR late")] in
  let run := initial_pass demo_lib (demo_cfg "csv" [user_pattern]) items sink0 0 in
  run.2 = Some ValueError /\ run.1.2 = 2 /\ matched run.1.1 = 2.
Proof.
  intros items run.
  destruct (initial_pass_stops_at_exception demo_lib (demo_cfg "csv" [user_pattern])
              [("app.log", 1, "ERROR disk")] [("app.log", 3, "ERROR late")]
              "app.log" 2 "ERROR user=bob" sink0
              (initial_pass demo_lib (demo_cfg "csv" [user_pattern])
                 [("app.log", 1, "ERROR disk")] sink0 0).1.1
              (process_line demo_lib (demo_cfg "csv" [user_pattern])
                 (initial_pass demo_lib (demo_cfg "csv" [user_pattern])
                    [("app.log", 1, "ERROR disk")] sink0 0).1.1
                 "app.log" 2 "ERROR user=bob").1
              0 1 ValueError) as [Hrun _].
  - reflexivity.
  - reflexivity.
  - unfold run, items. cbn [app] in Hrun. rewrite Hrun. repeat split.
Defined.
(** ** Field extraction and sinks *)

Section MoreSinkFacts.

Lemma extract_fields_snoc pats p line :
  extract_fields (pats ++ [p]) line
  = match search p line with
    | Some m => dict_update (extract_fields pats line) (named_groups m)
    | None => extract_fields pats line
    end.
Proof. unfold extract_fields. by rewrite fold_left_app. Qed.

Lemma dict_get_elem k v (d : dict) :
  NoDup (keys d) -> (k, v) ∈ d -> dict_get k d = Some v.
Proof.
  unfold keys. induction d as [|[k0 v0] d IH]; [by intros _ ?%elem_of_nil|].
  rewrite fmap_cons, NoDup_cons, elem_of_cons. intros [Hk0 Hnd] [Heq | Hin]; simpl.
  - injection Heq as -> ->. by rewrite bool_decide_eq_true_2.
  - rewrite bool_decide_eq_false_2; [by apply IH|].
    intros ->. apply Hk0. apply list_elem_of_fmap. by exists (k, v).
Qed.

Lemma keys_named_groups m :
  keys (named_groups m) = filter (fun k => k <> "") (groupdict m).*1.
Proof.
  unfold named_groups, keys. induction (groupdict m) as [|[k v] g IH]; [done|].
  rewrite fmap_cons. cbn [fst]. rewrite !filter_cons. cbn [fst].
  destruct (decide (k <> "")); [|exact IH].
  cbn [map]. rewrite fmap_cons. cbn [fst]. by rewrite IH.
Qed.

Lemma named_groups_NoDup m :
  NoDup (groupdict m).*1 -> NoDup (keys (named_groups m)).
Proof. intros H. rewrite keys_named_groups. by apply NoDup_filter. Qed.

Lemma elem_of_named_groups m k v :
  (k, v) ∈ groupdict m -> k <> "" -> (k, of_opt v) ∈ named_groups m.
Proof.
  intros Hin Hk. unfold named_groups.
  apply list_elem_of_In, in_map_iff. exists (k, v). split; [done|].
  apply list_elem_of_In, list_elem_of_filter. by split.
Qed.

Lemma extract_fields_none pats line :
  (forall q, q ∈ pats -> search q line = None) -> extract_fields pats line = [].
Proof.
  intros Hall. unfold extract_fields.
  assert (H : forall acc : dict,
    fold_left (fun extra ptn =>
                 match search ptn line with
                 | Some m => dict_update extra (named_groups m)
                 | None => extra
                 end) pats acc = acc); [|apply H].
  induction pats as [|p pats IH]; intros acc; [done|].
  simpl. rewrite (Hall p) by apply list_elem_of_here.
  apply IH. intros q Hq. apply Hall. by apply list_elem_of_further.
Qed.

Lemma ends_in_rstrip chars s : ends_in chars (rstrip chars s) = false.
Proof.
  induction s as [|c r IH]; [done|]. simpl.
  destruct (rstrip chars r) as [|d r'] eqn:Hr.
  - destruct (str_in c chars) eqn:Hc; [done|]. simpl. done.
  - done.
Qed.

Lemma sorted_set_sorted l :
  StronglySorted String.le (sorted_set l) /\ NoDup (sorted_set l).
Proof.
  unfold sorted_set. split.
  - apply StronglySorted_merge_sort; apply _.
  - rewrite merge_sort_Permutation. apply NoDup_remove_dups.
Qed.

(** Stripping at the right end stops at a character that is kept. *)
Lemma rstrip_keeps_head chars a c b :
  str_in c chars = false ->
  rstrip chars (a +:+ String c "" +:+ b) = a +:+ String c "" +:+ rstrip chars b.
Proof.
  intros Hc. change (String c "" +:+ b) with (String c b).
  change (String c "" +:+ rstrip chars b) with (String c (rstrip chars b)).
  induction a as [|x a IH].
  - change ("" +:+ String c b) with (String c b).
    change ("" +:+ String c (rstrip chars b)) with (String c (rstrip chars b)).
    simpl. rewrite Hc. by destruct (rstrip chars b).
  - rewrite !str_app_cons. simpl. rewrite IH.
    by destruct a.
Qed.

Lemma ends_in_app chars a b :
  b <> "" -> ends_in chars (a +:+ b) = ends_in chars b.
Proof.
  intros Hb. induction a as [|x a IH]; [done|].
  rewrite str_app_cons. simpl. rewrite IH.
  destruct (a +:+ b) eqn:Hab; [|done].
  destruct a; [|done]. by destruct b.
Qed.

Lemma rstrip_id chars s :
  s <> "" -> ends_in chars s = false -> rstrip chars s = s.
Proof.
  induction s as [|c r IH]; [done|]. intros _. simpl.
  destruct r as [|d r'].
  - simpl. by intros ->.
  - intros Hr. rewrite IH by done. done.
Qed.

End MoreSinkFacts.

(** X10. Field extraction: a pattern that does not match adds nothing;
    for a pattern that matches, each named group gives its field the
    captured value even when an earlier pattern had set that field, and
    fields the pattern has no group for keep the value they had; when no
    pattern matches there is no extracted field at all. *)
Theorem extract_fields_later_overrides (pats : list Pattern) (p : Pattern)
  (line : string) :
  (search p line = None ->
   extract_fields (pats ++ [p]) line = extract_fields pats line) /\
  (forall m k v,
      search p line = Some m -> NoDup (groupdict m).*1 ->
      (k, v) ∈ groupdict m -> k <> "" ->
      dict_get k (extract_fields (pats ++ [p]) line) = Some (of_opt v)) /\
  (forall m k,
      search p line = Some m -> NoDup (groupdict m).*1 ->
      k ∉ (groupdict m).*1 ->
      dict_get k (extract_fields (pats ++ [p]) line)
      = dict_get k (extract_fields pats line)) /\
  ((forall q, q ∈ pats -> search q line = None) ->
   extract_fields pats line = []).
Proof.
  split; [|split; [|split]].
  - intros Hp. by rewrite extract_fields_snoc, Hp.
  - intros m k v Hp Hnd Hin Hk. rewrite extract_fields_snoc, Hp.
    rewrite dict_get_update by (by apply named_groups_NoDup).
    rewrite (dict_get_elem k (of_opt v)); [done | by apply named_groups_NoDup|].
    by apply elem_of_named_groups.
  - intros m k Hp Hnd Hk. rewrite extract_fields_snoc, Hp.
    rewrite dict_get_update by (by apply named_groups_NoDup).
    assert (dict_get k (named_groups m) = None) as ->; [|done].
    apply dict_get_None. rewrite keys_named_groups.
    intros [_ ?]%list_elem_of_filter. done.
  - apply extract_fields_none.
Qed.

Lemma extract_fields_later_overrides_witness :
  let later :=
    {| pattern := "user=(?P<user>\w+) from (?P<host>\S+)";
       search := fun text =>
         if str_contains "user=bob" text
         then Some {| group0 := "user=bob from db1";
                      groupdict := [("user", Some "BOB"); ("host", None)] |}
         else None |} in
  dict_get "user" (extract_fields ([user_pattern] ++ [later]) "ERROR user=bob")
    = Some (PStr "BOB") /\
  dict_get "host" (extract_fields ([user_pattern] ++ [later]) "ERROR user=bob")
    = Some PNone /\
  extract_fields ([user_pattern] ++ [later]) "ERROR disk" = [].
Proof.
  intros later.
  destruct (extract_fields_later_overrides [user_pattern] later "ERROR user=bob")
    as (_ & Hset & _ & _).
  assert (Hnd : NoDup ["user"; "host"]).
  { apply (bool_decide_unpack _). by vm_compute. }
  split; [|split].
  - apply (Hset {| group0 := "user=bob from db1";
                   groupdict := [("user", Some "BOB"); ("host", None)] |}
                "user" (Some "BOB")); [reflexivity | exact Hnd | | done].
    apply list_elem_of_here.
  - apply (Hset {| group0 := "user=bob from db1";
                   groupdict := [("user", Some "BOB"); ("host", None)] |}
                "host" None); [reflexivity | exact Hnd | | done].
    apply list_elem_of_further, list_elem_of_here.
  - destruct (extract_fields_later_overrides [user_pattern; later] later
                "ERROR disk") as (_ & _ & _ & Hnone).
    apply Hnone. intros q Hq.
    apply elem_of_cons in Hq as [-> | Hq]; [reflexivity|].
    apply list_elem_of_singleton in Hq as ->. reflexivity.
Defined.

(** X11. The first record of a CSV run never fails: it writes the header
    and then its row.  The header is [file, lineno, timestamp, reason],
    then the field names seen so far in increasing order and without
    repetition, then [line]. *)
Theorem csv_first_record_header (s : sink) (fpath : string) (lineno : nat)
  (ts_out : string) (reason : option string) (line : string) (extra : dict) :
  csv_writer s = None ->
  let r := emit_record "csv" s fpath lineno ts_out reason line extra in
  exists names cells,
    r.2 = None /\
    csv_writer r.1 = Some (["file"; "lineno"; "timestamp"; "reason"] ++ names
                           ++ ["line"]) /\
    out r.1 = out s +:+
              csv_line (["file"; "lineno"; "timestamp"; "reason"] ++ names
                        ++ ["line"]) +:+
              csv_line cells /\
    length cells = 5 + length names /\
    StronglySorted String.le names /\ NoDup names /\
    (forall k, k ∈ names <-> k ∈ dynamic_fields s \/ k ∈ keys extra).
Proof.
  intros Hw r. unfold r.
  rewrite (csv_first_record s fpath lineno ts_out reason line extra Hw).
  eexists _, _. cbn [fst snd out csv_writer].
  split; [done|]. split; [done|]. split; [done|].
  split; [by rewrite !length_map, !length_app; simpl; lia|].
  split; [apply sorted_set_sorted|]. split; [apply sorted_set_sorted|].
  intros k. by rewrite elem_of_sorted_set, list_elem_of_union.
Qed.

Lemma csv_first_record_header_witness :
  csv_writer (emit_record "csv" sink0 "app.log" 1 "" (Some "kw:ERROR")
                "ERROR user=bob"
                [("user", PStr "bob"); ("host", PStr "db1")]).1
  = Some ["file"; "lineno"; "timestamp"; "reason"; "host"; "user"; "line"].
Proof.
  destruct (csv_first_record_header sink0 "app.log" 1 "" (Some "kw:ERROR")
              "ERROR user=bob" [("user", PStr "bob"); ("host", PStr "db1")]
              eq_refl) as (names & cells & _ & Hw & _).
  reflexivity.
Defined.

(** X12. Once the CSV writer exists its header never changes.  A later
    record is either written as one row with one cell per header column
    (when all its keys are header columns), or it raises [ValueError] and
    writes nothing; no header is written a second time. *)
Theorem csv_header_stays (s : sink) (header : list string) (fpath : string)
  (lineno : nat) (ts_out : string) (reason : option string) (line : string)
  (extra : dict) :
  csv_writer s = Some header ->
  let r := emit_record "csv" s fpath lineno ts_out reason line extra in
  let row := csv_row fpath lineno ts_out reason line extra in
  csv_writer r.1 = Some header /\
  ((forall k, k ∈ keys row -> k ∈ header) ->
   r.2 = None /\
   out r.1 = out s +:+
     csv_line (map (fun key => csv_cell (default (PStr "") (dict_get key row)))
                   header)) /\
  (~ (forall k, k ∈ keys row -> k ∈ header) ->
   r.2 = Some ValueError /\ out r.1 = out s).
Proof.
  intros Hw r row. unfold r, emit_record.
  rewrite bool_decide_eq_false_2, bool_decide_eq_true_2 by done.
  rewrite Hw. fold row. unfold _dict_to_list.
  destruct (forallb (fun k => bool_decide (k ∈ header)) (keys row)) eqn:Hall.
  - cbn [fst snd out csv_writer]. split; [done|]. split.
    + intros _. split; [done|]. by rewrite map_map.
    + intros Hnot. exfalso. apply Hnot. intros k Hk.
      rewrite forallb_forall in Hall.
      eapply bool_decide_eq_true, Hall. by apply list_elem_of_In.
  - cbn [fst snd out csv_writer]. split; [done|]. split.
    + intros Hin. exfalso. apply not_true_iff_false in Hall. apply Hall.
      apply forallb_forall. intros k Hk. apply bool_decide_eq_true, Hin.
      by apply list_elem_of_In.
    + done.
Qed.

Lemma csv_header_stays_witness :
  let first := (emit_record "csv" sink0 "app.log" 1 "" (Some "kw:ERROR")
                            "ERROR user=bob" [("user", PStr "bob")]).1 in
  let r := emit_record "csv" first "app.log" 2 "" (Some "kw:ERROR")
                       "ERROR disk" [] in
  csv_writer r.1 = Some ["file"; "lineno"; "timestamp"; "reason"; "user"; "line"] /\
  r.2 = None /\
  out r.1 = out first +:+ csv_line ["app.log"; "2"; ""; "kw:ERROR"; ""; "ERROR disk"].
Proof.
  intros first r.
  destruct (csv_header_stays first
              ["file"; "lineno"; "timestamp"; "reason"; "user"; "line"]
              "app.log" 2 "" (Some "kw:ERROR") "ERROR disk" [] eq_refl)
    as (Hhead & Hok & _).
  split; [exact Hhead|].
  apply Hok. intros k Hk.
  change (k ∈ ["file"; "lineno"; "timestamp"; "reason"; "line"]) in Hk.
  rewrite !elem_of_cons in Hk. rewrite !elem_of_cons. tauto.
Defined.

(** X13. The console sink never raises, counts the record and leaves
    the CSV state alone.  The text it writes is the path, the number,
    the timestamp and the reason, each closed by a bar, then the fields
    and the line with the white space at their end removed, then a line
    feed: a line that ends in no white space is written whole, and a
    record without fields and with an empty line ends at the last
    bar. *)
Theorem console_record (s : sink) (fpath : string) (lineno : nat)
  (ts_out : string) (reason : option string) (line : string) (extra : dict) :
  let r := emit_record "console" s fpath lineno ts_out reason line extra in
  let fields :=
    str_join_with " " (map (fun kv => kv.1 +:+ "=" +:+ py_str kv.2) extra) in
  let head := fun rest =>
    fpath +:+ "|" +:+ decimal lineno +:+ "|" +:+ ts_out +:+ "|"
    +:+ py_str (of_opt reason) +:+ "|" +:+ rest in
  r.2 = None /\
  csv_writer r.1 = csv_writer s /\ dynamic_fields r.1 = dynamic_fields s /\
  matched r.1 = S (matched s) /\
  out r.1
  = out s +:+ head (rstrip whitespace (" " +:+ fields +:+ " " +:+ line)) +:+ nl /\
  (line <> "" -> ends_in whitespace line = false ->
   out r.1 = out s +:+ head (" " +:+ fields +:+ " " +:+ line) +:+ nl) /\
  (extra = [] -> line = "" -> out r.1 = out s +:+ head "" +:+ nl).
Proof.
  intros r fields head.
  assert (Hout : out r.1
    = out s +:+ head (rstrip whitespace (" " +:+ fields +:+ " " +:+ line))
      +:+ nl).
  { unfold r, emit_record, head, fields.
    rewrite bool_decide_eq_true_2 by done. cbn [fst out].
    do 2 f_equal.
    assert ((if nonempty extra
             then str_join_with " "
                    (map (fun kv => kv.1 +:+ "=" +:+ py_str kv.2) extra)
             else "")
            = str_join_with " "
                (map (fun kv => kv.1 +:+ "=" +:+ py_str kv.2) extra)) as ->.
    { by destruct extra. }
    set (rest := str_join_with " " _ +:+ " " +:+ line).
    change ("| " +:+ rest) with ("|" +:+ " " +:+ rest).
    by rewrite !rstrip_keeps_head. }
  unfold r, emit_record in *.
  rewrite bool_decide_eq_true_2 in * by done.
  cbn [fst snd csv_writer dynamic_fields matched] in *.
  split; [done|]. split; [done|]. split; [done|]. split; [done|].
  split; [exact Hout|]. split.
  - intros Hline Hend. rewrite Hout. do 3 f_equal.
    apply rstrip_id.
    + by destruct fields.
    + rewrite <- (ends_in_app whitespace (" " +:+ fields +:+ " ") line Hline)
        in Hend.
      by rewrite !str_app_assoc in Hend.
  - intros -> ->. rewrite Hout. reflexivity.
Qed.

Lemma console_record_witness :
  let r := emit_record "console" sink0 "app.log" 3 "" (Some "kw:ERROR")
             "ERROR user=bob" [("user", PStr "bob")] in
  out r.1 = "app.log|3||kw:ERROR| user=bob ERROR user=bob" +:+ nl /\
  out (emit_record "console" sink0 "app.log" 4 "" None "" []).1
  = "app.log|4||None|" +:+ nl.
Proof.
  intros r.
  destruct (console_record sink0 "app.log" 3 "" (Some "kw:ERROR")
              "ERROR user=bob" [("user", PStr "bob")])
    as (_ & _ & _ & _ & _ & Hwhole & _).
  destruct (console_record sink0 "app.log" 4 "" None "" [])
    as (_ & _ & _ & _ & _ & _ & Hempty).
  split.
  - unfold r. rewrite Hwhole; [reflexivity | done | reflexivity].
  - rewrite Hempty; [reflexivity | done | done].
Defined.
(** ** File Resolver *)

Section MoreResolverFacts.

Context (expand : string -> string)
        (glob : string -> list string)
        (Path : string -> string)
        (is_file : string -> bool)
        (path_le : relation string)
        `{!RelDecision path_le}
        `{!PartialOrder path_le} `{!Total path_le}.

Lemma sorted_same_elements (l k : list string) :
  (forall x, x ∈ l <-> x ∈ k) ->
  merge_sort path_le (remove_dups l) = merge_sort path_le (remove_dups k).
Proof.
  intros Hsame. apply (StronglySorted_unique path_le).
  - apply StronglySorted_merge_sort; apply _.
  - apply StronglySorted_merge_sort; apply _.
  - rewrite !merge_sort_Permutation.
    apply NoDup_Permutation; [apply NoDup_remove_dups..|].
    intros x. by rewrite !elem_of_remove_dups.
Qed.

(** X14. The file set depends only on which patterns are given, not on
    their order or on repetitions: two include lists with the same
    patterns and two exclude lists with the same patterns resolve to the
    same list of files, in the same order. *)
Theorem find_files_order_independent (include include' exclude exclude' : list string) :
  (forall x, x ∈ include <-> x ∈ include') ->
  (forall x, x ∈ exclude <-> x ∈ exclude') ->
  find_files expand glob Path is_file path_le include exclude
  = find_files expand glob Path is_file path_le include' exclude'.
Proof.
  intros Hinc Hexc. unfold find_files.
  assert (Hsorted :
    merge_sort path_le (remove_dups (map Path (candidates expand glob Path is_file include)))
    = merge_sort path_le (remove_dups (map Path (candidates expand glob Path is_file include')))).
  { apply sorted_same_elements. intros x.
    rewrite !list_elem_of_In, !in_map_iff.
    split; intros (c & <- & Hc); exists c; (split; [done|]);
      apply list_elem_of_In; apply list_elem_of_In in Hc;
      apply elem_of_candidates in Hc as (pat & p & Hpat & Hp & -> & Hfile);
      apply elem_of_candidates; exists pat, p; (split; [by apply Hinc|]); done. }
  rewrite Hsorted.
  assert (Hne : nonempty exclude = nonempty exclude').
  { destruct exclude as [|e es], exclude' as [|e' es']; try done.
    - exfalso. eapply not_elem_of_nil, (proj2 (Hexc e')), list_elem_of_here.
    - exfalso. eapply not_elem_of_nil, (proj1 (Hexc e)), list_elem_of_here. }
  rewrite Hne. destruct (nonempty exclude'); [|done].
  apply list_filter_iff. intros f.
  rewrite !(elem_of_excluded expand glob Path).
  split; intros Hno (ex & p & Hex & Hp & ->); apply Hno; exists ex, p;
    (split; [by apply Hexc|]); done.
Qed.

End MoreResolverFacts.

Lemma find_files_order_independent_witness :
  find_files id demo_glob id demo_is_file String.le
             ["logs/*.1"; "logs/*"; "logs/*"] ["logs/*.1"]
  = find_files id demo_glob id demo_is_file String.le
               ["logs/*"; "logs/*.1"] ["logs/*.1"; "logs/*.1"].
Proof.
  apply (find_files_order_independent id demo_glob id demo_is_file String.le).
  - intros x. rewrite !elem_of_cons, !elem_of_nil. tauto.
  - intros x. rewrite !elem_of_cons, !elem_of_nil. tauto.
Defined.
(** ** Tail Engine *)

Section MoreTailFacts.

Context {St : Type} (callback : St -> event -> St * option exn).

Lemma elem_of_tail_init fs files f :
  f ∈ (tail_init fs files).*1 <->
  f ∈ files /\ endswith f ".gz" = false /\ is_Some (dir fs f).
Proof.
  induction files as [|g files IH].
  - simpl. rewrite !elem_of_nil. tauto.
  - simpl. unfold _open at 1.
    destruct (endswith g ".gz") eqn:Hgz.
    + rewrite IH, elem_of_cons. split; [tauto|].
      intros [[-> | Hin] [Hf Hd]]; [congruence | tauto].
    + destruct (dir fs g) as [ino|] eqn:Hdir.
      * rewrite fmap_cons. cbn [fst]. rewrite !elem_of_cons, IH. split.
        -- intros [-> | ?]; [|tauto]. rewrite Hdir. eauto.
        -- intros [[-> | Hin] [Hf Hd]]; [by left | right; tauto].
      * rewrite IH, elem_of_cons. split; [tauto|].
        intros [[-> | Hin] [Hf Hd]]; [|tauto].
        rewrite Hdir in Hd. by destruct Hd.
Qed.

Lemma tail_init_NoDup fs files : NoDup files -> NoDup (tail_init fs files).*1.
Proof.
  induction files as [|g files IH]; [done|].
  rewrite NoDup_cons. intros [Hfresh Hnd]. simpl.
  destruct (_open fs g); [|by apply IH].
  rewrite fmap_cons. apply NoDup_cons. split; [|by apply IH].
  intros Hin. apply elem_of_tail_init in Hin as [? _]. done.
Qed.

Lemma poll_file_at_end fs f ino (s : St) :
  endswith f ".gz" = false -> dir fs f = Some ino ->
  poll_file callback fs f (reopened ino (String.length (data fs ino))) s
  = (Kept (reopened ino (String.length (data fs ino))) [], s).
Proof.
  intros Hgz Hdir. unfold poll_file, reopened. rewrite Hdir. simpl.
  rewrite Nat.ltb_irrefl. unfold _read_new_lines. simpl.
  by rewrite str_drop_all.
Qed.

Lemma sweeps_keys snaps state (s : St) :
  (sweeps callback snaps state s).1.1.*1 `sublist_of` state.*1.
Proof.
  revert state s. induction snaps as [|fs later IH]; intros state s; [done|].
  simpl. pose proof (sweep_keys callback fs state s) as Hfirst.
  destruct (sweep callback fs state s) as [[state' evs] s1].
  specialize (IH state' s1).
  destruct (sweeps callback later state' s1) as [[state'' evs'] s2].
  simpl in *. by etrans.
Qed.

Lemma texts_imap f n (lines : list string) :
  texts (imap (fun i ln => (f, n + S i, ln)) lines) = lines.
Proof.
  revert n. induction lines as [|l ls IH]; intros n; [done|].
  unfold texts in *. simpl. f_equal. rewrite <- (IH (S n)) at 2.
  f_equal. apply imap_ext. intros i x _. simpl. do 2 f_equal. lia.
Qed.

(** The calls of one loop are made on the first lines, in order. *)
Lemma feed_prefix f n lines s :
  texts (feed callback f n lines s).1.2 `prefix_of` lines.
Proof.
  revert n s. induction lines as [|ln rest IH]; intros n s; simpl.
  - by exists [].
  - destruct (callback s (f, S n, ln)) as [s' [e|]].
    + by exists rest.
    + specialize (IH (S n) s').
      destruct (feed callback f (S n) rest s') as [[n' evs] s''].
      simpl in *. change (texts ((f, S n, ln) :: evs)) with (ln :: texts evs).
      by apply prefix_cons.
Qed.

Lemma str_drop_nonempty p s : str_drop p s <> "" -> p < String.length s.
Proof.
  revert s. induction p as [|p IH]; intros s.
  - destruct s; [done|]. simpl. lia.
  - destruct s as [|c r]; [done|]. simpl. intros H. apply IH in H. lia.
Qed.

End MoreTailFacts.

(** X15. Follow mode watches exactly the given files that do not end in
    [.gz] and that can be opened, each once; a file whose name ends in
    [.gz] is never watched and nothing is ever fed for it. *)
Theorem tail_init_watched {St : Type} (callback : St -> event -> St * option exn)
  (fs : filesys) (files : list string) (f : string) :
  (f ∈ (tail_init fs files).*1 <->
   f ∈ files /\ endswith f ".gz" = false /\ is_Some (dir fs f)) /\
  (NoDup files -> NoDup (tail_init fs files).*1) /\
  (endswith f ".gz" = true ->
   forall snaps s, events_of f (_tail_files callback fs snaps files s).1.2 = []).
Proof.
  split; [apply elem_of_tail_init|]. split; [apply tail_init_NoDup|].
  intros Hgz snaps s. unfold _tail_files. apply sweeps_unwatched.
  intros Hin. apply elem_of_tail_init in Hin as (_ & Hno & _). congruence.
Qed.

Lemma tail_init_watched_witness :
  let fs := one_file "old.log.gz" 3 ("zipped" +:+ nl) in
  let grown := one_file "old.log.gz" 3 ("zipped" +:+ nl +:+ "more" +:+ nl) in
  events_of "old.log.gz"
    (_tail_files quiet fs [grown] ["old.log.gz"] tt).1.2 = [].
Proof.
  intros fs grown.
  apply (tail_init_watched quiet fs ["old.log.gz"] "old.log.gz"). reflexivity.
Defined.

(** X16. Follow mode starts at the end of every file: a sweep over the
    file system as it was when the files were opened feeds nothing, and
    leaves the cursors and the state of the callback as they were. *)
Theorem sweep_unchanged_is_silent {St : Type}
  (callback : St -> event -> St * option exn)
  (fs : filesys) (files : list string) (s : St) :
  sweep callback fs (tail_init fs files) s = (tail_init fs files, [], s).
Proof.
  induction files as [|f files IH]; [done|].
  cbn [tail_init]. destruct (_open fs f) as [st0|] eqn:Hopen; [|exact IH].
  unfold _open in Hopen.
  destruct (endswith f ".gz") eqn:Hgz; [done|].
  destruct (dir fs f) as [ino|] eqn:Hdir; [|done].
  injection Hopen as <-.
  change {| fh := ino; pos := String.length (data fs ino); lineno := 0;
            stat := (ino, String.length (data fs ino)) |}
    with (reopened ino (String.length (data fs ino))).
  cbn [sweep]. rewrite poll_file_at_end by done. by rewrite IH.
Qed.

(** X17. A watched file that has vanished at a sweep is dropped from the
    watched set for good: nothing is fed for it in that sweep or in any
    later one, even when a file of that name exists again. *)
Theorem vanished_file_is_dropped {St : Type}
  (callback : St -> event -> St * option exn)
  (state : tail_state) (f : string) (st : cursor) (fs : filesys)
  (later : list filesys) (s : St) :
  NoDup state.*1 -> cursor_of f state = Some st -> dir fs f = None ->
  events_of f (sweeps callback (fs :: later) state s).1.2 = [] /\
  cursor_of f (sweeps callback (fs :: later) state s).1.1 = None.
Proof.
  intros Hnd Hcur Hdir. cbn [sweeps].
  destruct (sweep_file callback fs state f st s Hnd Hcur) as (s0 & He & Hc).
  unfold poll_file in He, Hc. rewrite Hdir in He, Hc. simpl in He, Hc.
  destruct (sweep callback fs state s) as [[state' evs] s1]. simpl in He, Hc.
  apply cursor_of_None in Hc.
  pose proof (sweeps_unwatched callback later state' f s1 Hc) as Hl.
  pose proof (sweeps_keys callback later state' s1) as Hkeys.
  destruct (sweeps callback later state' s1) as [[state'' evs'] s2].
  simpl in *. split.
  - by rewrite events_of_app, He, Hl.
  - apply cursor_of_None. intros Hin. apply Hc.
    by eapply elem_of_sublist.
Qed.

Lemma vanished_file_is_dropped_witness :
  let fs0 := one_file "app.log" 7 installed in
  let gone := one_file "other.log" 8 "" in
  let back := one_file "app.log" 9 (installed +:+ "new" +:+ nl) in
  events_of "app.log"
    (sweeps quiet [gone; back] (tail_init fs0 ["app.log"]) tt).1.2 = [].
Proof.
  intros fs0 gone back.
  apply (vanished_file_is_dropped quiet (tail_init fs0 ["app.log"]) "app.log"
           (reopened 7 5) gone [back] tt).
  - vm_compute. apply NoDup_singleton.
  - reflexivity.
  - reflexivity.
Defined.

(** X18. The watched set never grows: after any number of sweeps the
    watched files are among those watched before, in the same order;
    files that appear later are not picked up. *)
Theorem watched_set_never_grows {St : Type}
  (callback : St -> event -> St * option exn)
  (snaps : list filesys) (state : tail_state) (s : St) :
  (sweeps callback snaps state s).1.1.*1 `sublist_of` state.*1 /\
  length (sweeps callback snaps state s).1.1 <= length state.
Proof.
  pose proof (sweeps_keys callback snaps state s) as H.
  split; [done|]. apply sublist_length in H. by rewrite !length_fmap in H.
Qed.

(** X19. Lines are lost when the callback raises: the position is moved
    to the end of the file before the lines are fed, so after an
    exception on the first of several appended lines the cursor stands
    at the end, the counter has counted one line, and the next sweep
    feeds none of the remaining lines. *)
Theorem callback_failure_loses_lines {St : Type}
  (callback : St -> event -> St * option exn)
  (fs fs' : filesys) (f : string) (st : cursor) (l : string)
  (more : list string) (s s' : St) (e : exn) :
  in_sync fs f st ->
  dir fs' f = dir fs f ->
  data fs' (fh st) = data fs (fh st) +:+ str_join (l :: more) ->
  Forall (fun x => is_line x = true) (l :: more) ->
  callback s (f, S (lineno st), l) = (s', Some e) ->
  let size := String.length (data fs' (fh st)) in
  let st1 := {| fh := fh st; pos := size; lineno := S (lineno st);
                stat := (fh st, size) |} in
  poll_file callback fs' f st s = (Kept st1 [(f, S (lineno st), l)], s') /\
  forall s2, poll_file callback fs' f st1 s2 = (Kept st1 [], s2).
Proof.
  intros (Hdir & Hpos & Hstat) Hdir' Hdata Hlines Hraise size st1.
  assert (Hlen : size = pos st + String.length (str_join (l :: more))).
  { unfold size. by rewrite Hdata, str_length_app, Hpos. }
  split.
  - unfold poll_file. rewrite Hdir', Hdir. fold size.
    rewrite (proj2 (Nat.ltb_ge _ _)) by lia.
    unfold _read_new_lines.
    assert (str_drop (pos st) (data fs' (fh st)) = str_join (l :: more)) as ->.
    { by rewrite Hdata, Hpos, str_drop_app. }
    rewrite readlines_join by done.
    assert (map (rstrip bs_n) (l :: more) = l :: more) as ->.
    { clear -Hlines. induction Hlines as [|x xs Hx _ IH]; [done|].
      simpl. by rewrite rstrip_bs_n_line, IH. }
    fold size. rewrite Nat.max_r by lia.
    cbn [feed]. rewrite Hraise. done.
  - intros s2. unfold poll_file, st1, size. rewrite Hdir', Hdir.
    cbn [stat snd fh pos lineno]. rewrite Nat.ltb_irrefl.
    unfold _read_new_lines. cbn [stat snd fh pos lineno].
    by rewrite str_drop_all.
Qed.

(** A callback that raises on every line. *)
Lemma callback_failure_loses_lines_witness :
  let failing := fun (s : unit) (ev : event) => (s, Some ValueError) in
  let fs := one_file "app.log" 7 installed in
  let fs' := one_file "app.log" 7 (installed +:+ "one" +:+ nl +:+ "two" +:+ nl) in
  poll_file failing fs' "app.log" (reopened 7 5) tt
    = (Kept {| fh := 7; pos := 13; lineno := 1; stat := (7, 13) |}
            [("app.log", 1, "one" +:+ nl)], tt) /\
  poll_file failing fs' "app.log"
            {| fh := 7; pos := 13; lineno := 1; stat := (7, 13) |} tt
    = (Kept {| fh := 7; pos := 13; lineno := 1; stat := (7, 13) |} [], tt).
Proof.
  intros failing fs fs'.
  destruct (callback_failure_loses_lines failing fs fs' "app.log" (reopened 7 5)
              ("one" +:+ nl) ["two" +:+ nl] tt tt ValueError) as [H1 H2].
  - repeat split.
  - reflexivity.
  - reflexivity.
  - repeat constructor.
  - reflexivity.
  - split; [exact H1 | exact (H2 tt)].
Defined.

(** X20. Only a smaller size makes the Tail Engine reopen a file.  When
    the path names a file that is not smaller than the size last seen,
    the poll reads on from the handle it holds, whatever file the path
    now names: the lines it feeds are the first lines of the rest of the
    handle's file, all of them when the callback returns, and the
    position moves to the end of the handle's file.  From the path it
    takes the remembered inode number and, when there was nothing to
    read, the remembered size. *)
Theorem replaced_file_keeps_handle {St : Type}
  (callback : St -> event -> St * option exn)
  (fs : filesys) (f : string) (st : cursor) (ino : nat) (s : St) :
  dir fs f = Some ino ->
  snd (stat st) <= String.length (data fs ino) ->
  let rest := str_drop (pos st) (data fs (fh st)) in
  exists st' evs,
    (poll_file callback fs f st s).1 = Kept st' evs /\
    fh st' = fh st /\
    stat st' = (ino, if bool_decide (rest = "")
                     then String.length (data fs ino)
                     else String.length (data fs (fh st))) /\
    pos st' = (if bool_decide (rest = "") then pos st
               else String.length (data fs (fh st))) /\
    texts evs `prefix_of` map (rstrip bs_n) (readlines rest) /\
    (returns callback -> texts evs = map (rstrip bs_n) (readlines rest)).
Proof.
  intros Hdir Hsize rest. unfold poll_file. rewrite Hdir.
  rewrite (proj2 (Nat.ltb_ge _ _)) by done.
  unfold _read_new_lines. fold rest.
  destruct (readlines rest) as [|l0 ls0] eqn:Hrest.
  - apply readlines_nil in Hrest. rewrite Hrest.
    rewrite bool_decide_eq_true_2 by done.
    eexists _, _. cbn [fst map]. split; [reflexivity|].
    split; [done|]. split; [done|]. split; [done|].
    split; [by exists []|done].
  - assert (Hne : rest <> "") by (intros Heq; by rewrite Heq in Hrest).
    rewrite bool_decide_eq_false_2 by done.
    pose proof (str_drop_nonempty _ _ Hne) as Hlt.
    rewrite Nat.max_r by lia.
    set (lines := map (rstrip bs_n) (l0 :: ls0)).
    assert (Hl : exists l ls, lines = l :: ls) by (by eexists _, _).
    destruct Hl as (l & ls & Hl). rewrite Hl.
    pose proof (feed_prefix callback f (lineno st) (l :: ls) s) as Hpre.
    pose proof (feed_returns callback f (lineno st) (l :: ls) s) as Hfeed.
    destruct (feed callback f (lineno st) (l :: ls) s) as [[n evs] s1].
    cbn [fst snd] in Hpre, Hfeed.
    eexists _, _. cbn [fst]. split; [reflexivity|].
    split; [done|]. split; [done|]. split; [done|]. split; [exact Hpre|].
    intros Hret. specialize (Hfeed Hret). injection Hfeed as _ ->.
    apply (texts_imap f (lineno st) (l :: ls)).
Qed.

(** The path [app.log] now names a new, longer file; the handle still
    reads the old one, which has grown by a line. *)
Lemma replaced_file_keeps_handle_witness :
  let fs :=
    {| dir := fun q => if bool_decide (q = "app.log") then Some 8 else None;
       data := fun i => if bool_decide (i = 7) then installed +:+ "old" +:+ nl
                        else "a new and longer file" +:+ nl;
       gz_data := fun _ => None |} in
  exists st' evs,
    (poll_file quiet fs "app.log" (reopened 7 5) tt).1 = Kept st' evs /\
    fh st' = 7 /\ stat st' = (8, 9) /\ pos st' = 9 /\
    texts evs = ["old" +:+ nl].
Proof.
  intros fs.
  destruct (replaced_file_keeps_handle quiet fs "app.log" (reopened 7 5) 8 tt)
    as (st' & evs & Hp & Hfh & Hstat & Hpos & _ & Ht).
  - reflexivity.
  - vm_compute. lia.
  - exists st', evs. split; [exact Hp|]. split; [exact Hfh|].
    split; [exact Hstat|]. split; [exact Hpos|].
    apply Ht. intros ? ?. reflexivity.
Defined.

(** X21. Whatever text was appended to a watched file is cut into lines
    at the next sweep and fed at once, numbered after the counter; the
    cursor then stands at the new end.  An unfinished last line is fed
    as a line of its own, so its continuation is fed later as another
    line with the next number. *)
Theorem appended_text_is_fed {St : Type}
  (callback : St -> event -> St * option exn)
  (fs fs' : filesys) (f : string) (st : cursor) (added : string) (s : St) :
  returns callback ->
  in_sync fs f st ->
  dir fs' f = dir fs f ->
  data fs' (fh st) = data fs (fh st) +:+ added ->
  exists st' evs,
    (poll_file callback fs' f st s).1 = Kept st' evs /\
    texts evs = map (rstrip bs_n) (readlines added) /\
    linenos evs = seq (S (lineno st)) (length (readlines added)) /\
    lineno st' = lineno st + length (readlines added) /\
    in_sync fs' f st'.
Proof.
  intros Hret (Hdir & Hpos & Hstat) Hdir' Hdata.
  assert (Hlen : String.length (data fs' (fh st))
                 = pos st + String.length added).
  { by rewrite Hdata, str_length_app, Hpos. }
  unfold poll_file. rewrite Hdir', Hdir.
  rewrite (proj2 (Nat.ltb_ge _ _)) by lia.
  unfold _read_new_lines.
  assert (str_drop (pos st) (data fs' (fh st)) = added) as ->.
  { by rewrite Hdata, Hpos, str_drop_app. }
  rewrite Nat.max_r by lia.
  destruct (readlines added) as [|l ls] eqn:Hlines.
  - apply readlines_nil in Hlines. subst added. simpl in Hlen.
    eexists _, _. cbn [fst map]. split; [reflexivity|].
    repeat split; simpl; try done; try lia. by rewrite Hdir'.
  - cbn [map].
    pose proof (feed_returns callback f (lineno st)
                  (rstrip bs_n l :: map (rstrip bs_n) ls) s Hret) as Hfeed.
    destruct (feed callback f (lineno st)
                (rstrip bs_n l :: map (rstrip bs_n) ls) s) as [[n evs] s1].
    cbn [fst] in Hfeed. injection Hfeed as -> ->.
    eexists _, _. cbn [fst]. split; [reflexivity|].
    split; [apply (texts_imap f (lineno st) (rstrip bs_n l :: map (rstrip bs_n) ls))|].
    split.
    { etrans;
        [exact (linenos_imap f (lineno st) (rstrip bs_n l :: map (rstrip bs_n) ls))|].
      cbn [length]. by rewrite length_map. }
    split; [cbn [lineno length]; by rewrite length_map|].
    repeat split; simpl; try done. by rewrite Hdir'.
Qed.

Lemma appended_text_is_fed_witness :
  let fs := one_file "app.log" 7 installed in
  let fs' := one_file "app.log" 7 (installed +:+ "done" +:+ nl +:+ "par") in
  exists st' evs,
    (poll_file quiet fs' "app.log" (reopened 7 5) tt).1 = Kept st' evs /\
    texts evs = ["done" +:+ nl; "par"] /\ linenos evs = [1; 2].
Proof.
  intros fs fs'.
  destruct (appended_text_is_fed quiet fs fs' "app.log" (reopened 7 5)
              ("done" +:+ nl +:+ "par") tt)
    as (st' & evs & Hp & Ht & Hn & _).
  - intros ? ?. reflexivity.
  - repeat split.
  - reflexivity.
  - reflexivity.
  - exists st', evs. split; [exact Hp|]. split; [exact Ht | exact Hn].
Defined.
(** ** The written JSONL file and its preview *)

Section MorePreviewFacts.

Lemma str_app_empty_l s : "" +:+ s = s.
Proof. reflexivity. Qed.

Lemma ascii_eqb_refl c : ascii_eqb c c = true.
Proof. by apply ascii_eqb_true. Qed.

Lemma ascii_eqb_false' a b : a <> b -> ascii_eqb a b = false.
Proof. intros H. unfold ascii_eqb. by apply bool_decide_eq_false. Qed.

Lemma is_break_cases x : is_break x = true -> x = LF \/ x = CR.
Proof.
  unfold is_break. intros [H|H]%orb_true_iff; apply ascii_eqb_true in H; auto.
Qed.

Lemma json_escape_char_no_break c x :
  is_break x = true -> str_in x (json_escape_char c) = false.
Proof.
  intros [-> | ->]%is_break_cases;
    destruct c as [[] [] [] [] [] [] [] []]; vm_compute; reflexivity.
Qed.

Lemma json_escape_no_break s x :
  is_break x = true -> str_in x (json_escape s) = false.
Proof.
  intros Hx. induction s as [|c s IH]; [done|].
  cbn [json_escape]. by rewrite str_in_app, json_escape_char_no_break, IH.
Qed.

Lemma json_string_no_break s x :
  is_break x = true -> str_in x (json_string s) = false.
Proof.
  intros Hx. unfold json_string. cbn [str_in].
  rewrite str_in_app, json_escape_no_break by done.
  by destruct (is_break_cases x Hx) as [-> | ->].
Qed.

Lemma decimal_no_break n x : is_break x = true -> str_in x (decimal n) = false.
Proof.
  intros [-> | ->]%is_break_cases; unfold decimal;
    induction (Nat.to_uint n); simpl; done.
Qed.

Lemma json_dumps_no_break d x :
  is_break x = true -> str_in x (json_dumps d) = false.
Proof.
  intros Hx. unfold json_dumps. rewrite !str_in_app.
  assert (Hmembers : str_in x (str_join_with ", " (map json_member d)) = false).
  { induction d as [|[k v] d IH]; [done|].
    assert (Hm : str_in x (json_member (k, v)) = false).
    { unfold json_member. cbn [fst snd]. rewrite !str_in_app.
      rewrite json_string_no_break by done.
      destruct v as [t|n|]; cbn [json_value];
        rewrite ?json_string_no_break, ?decimal_no_break by done;
        by destruct (is_break_cases x Hx) as [-> | ->]. }
    destruct d as [|m d]; [exact Hm|].
    change (str_join_with ", " (map json_member ((k, v) :: m :: d)))
      with (json_member (k, v) +:+ ", " +:+
            str_join_with ", " (map json_member (m :: d))).
    rewrite !str_in_app, Hm, IH.
    by destruct (is_break_cases x Hx) as [-> | ->]. }
  rewrite Hmembers. by destruct (is_break_cases x Hx) as [-> | ->].
Qed.

(** A text without line breaks is one line. *)
Lemma readlines_one_line s :
  s <> "" -> str_in LF s = false -> str_in CR s = false -> readlines s = [s].
Proof.
  induction s as [|c r IH]; [done|]. intros _. cbn [str_in].
  intros [Hlf Hr1]%orb_false_iff [Hcr Hr2]%orb_false_iff.
  rewrite readlines_cons.
  replace (ascii_eqb c LF) with false.
  2:{ symmetry. apply ascii_eqb_false'. intros ->. by rewrite (ascii_eqb_refl LF) in Hlf. }
  replace (ascii_eqb c CR) with false.
  2:{ symmetry. apply ascii_eqb_false'. intros ->. by rewrite (ascii_eqb_refl CR) in Hcr. }
  destruct r as [|d r']; [done|]. by rewrite IH.
Qed.

Lemma strip_terminator_no_break s :
  str_in LF s = false -> str_in CR s = false -> strip_terminator s = s.
Proof.
  induction s as [|c r IH]; [done|]. cbn [str_in].
  intros [Hlf Hr1]%orb_false_iff [Hcr Hr2]%orb_false_iff.
  cbn [strip_terminator].
  replace (ascii_eqb c LF) with false.
  2:{ symmetry. apply ascii_eqb_false'. intros ->. by rewrite (ascii_eqb_refl LF) in Hlf. }
  replace (ascii_eqb c CR) with false.
  2:{ symmetry. apply ascii_eqb_false'. intros ->. by rewrite (ascii_eqb_refl CR) in Hcr. }
  simpl. by rewrite IH.
Qed.

(** The tokens of a written object, whatever text follows it. *)
Lemma lex_members_then d rest :
  lex Top (str_join_with ", " (map json_member d) +:+ "}" +:+ rest)
  = (fun ts => members_tokens d ++ TRBrace :: ts) <$> lex Top rest.
Proof.
  induction d as [|[k v] d IH].
  - change (lex Top (str_join_with ", " (map json_member []) +:+ "}" +:+ rest))
      with (cons TRBrace <$> lex Top rest).
    by destruct (lex Top rest).
  - destruct d as [|m d].
    + change (str_join_with ", " (map json_member [(k, v)]))
        with (json_member (k, v)).
      change ("}" +:+ rest) with (String "}" rest).
      rewrite lex_json_member by done.
      change (lex Top (String "}" rest)) with (cons TRBrace <$> lex Top rest).
      by destruct (lex Top rest).
    + change (str_join_with ", " (map json_member ((k, v) :: m :: d)))
        with (json_member (k, v) +:+ ", " +:+
              str_join_with ", " (map json_member (m :: d))).
      rewrite !str_app_assoc.
      change (", " +:+ str_join_with ", " (map json_member (m :: d)) +:+ "}" +:+ rest)
        with (String "," (String " "
               (str_join_with ", " (map json_member (m :: d)) +:+ "}" +:+ rest))).
      rewrite lex_json_member by done.
      change (lex Top (String "," (String " "
               (str_join_with ", " (map json_member (m :: d)) +:+ "}" +:+ rest))))
        with (cons TComma <$>
              lex Top (str_join_with ", " (map json_member (m :: d)) +:+ "}" +:+ rest)).
      rewrite IH. by destruct (lex Top rest).
Qed.

(** A written object followed by a backslash is not JSON. *)
Lemma json_loads_then_backslash d rest :
  json_loads (json_dumps d +:+ String BSL rest) = None.
Proof.
  unfold json_loads, json_dumps. rewrite !str_app_assoc.
  change (lex Top ("{" +:+ str_join_with ", " (map json_member d) +:+ "}" +:+
                   String BSL rest))
    with (cons TLBrace <$>
          lex Top (str_join_with ", " (map json_member d) +:+ "}" +:+
                   String BSL rest)).
  rewrite lex_members_then. done.
Qed.

Lemma out_fold_emit_jsonl records s :
  out (fold_left emit_jsonl records s)
  = out s +:+ str_join (map (fun a => json_dumps (rec_of a) +:+ bs_n) records) /\
  matched (fold_left emit_jsonl records s) = matched s + length records.
Proof.
  revert s. induction records as [|a records IH]; intros s.
  - simpl. by rewrite str_app_nil_r, Nat.add_0_r.
  - cbn [fold_left]. destruct (IH (emit_jsonl s a)) as [-> ->].
    destruct a as [[[[[fpath lineno] ts_out] reason] line] extra].
    cbn [map length]. rewrite str_join_cons.
    unfold emit_jsonl, rec_of, emit_record. simpl.
    rewrite !str_app_assoc. split; [done | lia].
Qed.

End MorePreviewFacts.

(** X22. What the [jsonl] sink writes is never shown by the preview of
    the web front end: the records of a run, however many, form one
    line of text in which the first object is followed by a backslash,
    [json.loads] rejects that line, and the preview stays empty while
    [matched] counts every record. *)
Theorem preview_of_jsonl_output_is_empty (records : list record_args) :
  matched (jsonl_run records) = length records /\
  length (text_lines (out (jsonl_run records))) <= 1 /\
  preview_jsonl (Some (out (jsonl_run records))) = [].
Proof.
  unfold jsonl_run. destruct (out_fold_emit_jsonl records sink0) as [Hout Hm].
  split; [exact Hm|].
  destruct records as [|a records]; [split; [simpl; lia | reflexivity]|].
  set (text := out (fold_left emit_jsonl (a :: records) sink0)) in *.
  assert (Htext : text = json_dumps (rec_of a) +:+ String BSL
            (String "n" (str_join (map (fun a => json_dumps (rec_of a) +:+ bs_n)
                                       records)))).
  { rewrite Hout. cbn [map out sink0]. rewrite str_join_cons.
    by rewrite str_app_empty_l, str_app_assoc. }
  assert (Hno : forall x, is_break x = true -> str_in x text = false).
  { intros x Hx. rewrite Hout. cbn [out sink0]. rewrite str_app_empty_l.
    generalize (a :: records). intros rs.
    induction rs as [|r rs IH]; [done|].
    cbn [map]. rewrite str_join_cons, !str_in_app, IH.
    rewrite json_dumps_no_break by done.
    by destruct (is_break_cases x Hx) as [-> | ->]. }
  assert (Hne : text <> "").
  { rewrite Htext. unfold json_dumps. by rewrite str_app_cons. }
  assert (Hlines : text_lines text = [text]).
  { unfold text_lines. rewrite readlines_one_line by (try done; by apply Hno).
    cbn [map]. unfold translated.
    by rewrite strip_terminator_no_break, bool_decide_eq_true_2 by (try done; by apply Hno). }
  unfold preview_jsonl. rewrite Hlines. split; [simpl; lia|].
  change (omap json_loads (take 100 [text]))
    with (match json_loads text with Some d => [d] | None => [] end).
  assert (json_loads text = None) as ->; [|done].
  rewrite Htext. apply json_loads_then_backslash.
Qed.
